(** * Connection lifecycle of the KAYA-MD session manager

    A shallow embedding of the two entry files of the repository:

    - [index.js]   (function [startSocket], credentials kept in the
      directory [AUTH_DIR] through [useMultiFileAuthState]);
    - the second entry file (function [startSock], credentials kept in the
      single file [AUTH_FILE] through [useSingleFileAuthState]).

    Both files share the same shape: three ambient variables read by the
    HTTP routes, a [start] function wrapped in one [try]/[catch], and a
    ['connection.update'] listener that handles the pairing challenge, the
    connection state and the disconnect reason.  The differences between the
    two files are kept under the [Variant] switch.

    JavaScript values are a small untyped universe [JsVal]; statements run in
    a state-and-exception monad [M] over a [World] that holds the three
    ambient variables, the presence of the credential store on disk and the
    ordered trace of the calls made to the outside (logger, timers, file
    system, socket library).  Answers of the outside (promise outcomes, clock
    readings, file-system refusals) are read from an environment record.
    Every listener invocation is run to completion. *)

From Stdlib Require Import List String Ascii NArith ZArith Bool Lia.
Import ListNotations.
Open Scope string_scope.
Open Scope list_scope.
Open Scope Z_scope.

(** ** JavaScript values *)

(** The values the program handles: primitives, arrays, and plain objects
    given by their own data properties in insertion order.  Objects with an
    iterator or with accessors (a Set, a Map, a Buffer, a typed array) are
    not values of this universe. *)

Set Warnings "-register-all".

Inductive JsVal : Type :=
| JUndefined
| JNull
| JBool (b : bool)
| JNum (n : Z)
| JNaN
| JStr (s : string)
| JArr (elems : list JsVal)
| JObj (fields : list (string * JsVal)).

(** [ToBoolean]: the falsy values are undefined, null, false, 0, NaN
    and the empty string. *)
Definition truthy (v : JsVal) : bool :=
  match v with
  | JUndefined | JNull | JNaN => false
  | JBool b => b
  | JNum n => negb (n =? 0)
  | JStr s => negb (String.eqb s "")
  | JArr _ | JObj _ => true
  end.

Definition nullish (v : JsVal) : bool :=
  match v with
  | JUndefined | JNull => true
  | _ => false
  end.

Fixpoint lookup (name : string) (fields : list (string * JsVal)) : JsVal :=
  match fields with
  | [] => JUndefined
  | (k, x) :: rest => if String.eqb k name then x else lookup name rest
  end.

(** [v[name]] for a [v] that is neither null nor undefined.  None of the
    property names read by the program ([connection], [lastDisconnect], [qr],
    [error], [output], [payload], [statusCode], [version], [messages],
    [message], [key], [remoteJid]) exists on the prototype of a primitive or
    of an array, so only objects answer. *)
Definition prop (v : JsVal) (name : string) : JsVal :=
  match v with
  | JObj fields => lookup name fields
  | _ => JUndefined
  end.

(** Optional chaining [v?.name]. *)
Definition opt_prop (v : JsVal) (name : string) : JsVal :=
  if nullish v then JUndefined else prop v name.

(** Strict equality [v === p] against a primitive [p].  Objects and arrays
    are compared by reference in JavaScript and the program only compares
    against number and string literals, so they are never equal here. *)
Definition strict_eq (v p : JsVal) : bool :=
  match v, p with
  | JUndefined, JUndefined => true
  | JNull, JNull => true
  | JBool a, JBool b => Bool.eqb a b
  | JNum a, JNum b => a =? b
  | JStr a, JStr b => String.eqb a b
  | _, _ => false
  end.

Definition isArray (v : JsVal) : bool :=
  match v with
  | JArr _ => true
  | _ => false
  end.

Definition TypeError : JsVal := JObj [("name", JStr "TypeError")].

(** ** Calls made to the outside *)

Inductive Level := Debug | Info | Warn | Error.

Inductive Effect : Type :=
| ELog (lvl : Level) (msg : string) (args : list JsVal)
| ESetTimeout (delay : Z)              (* setTimeout(() => start(), delay) *)
| EExistsSync                          (* fs.existsSync(AUTH_DIR) *)
| ERmSync                              (* fs.rmSync(AUTH_DIR, {recursive, force}) *)
| EUnlinkSync                          (* fs.unlinkSync(AUTH_FILE) *)
| ELoadAuth                            (* use{Multi,Single}FileAuthState(...) *)
| ESaveAuth                            (* saveCreds / saveState *)
| EMakeWASocket (version : JsVal)      (* makeWASocket({ ..., version }) *)
| EBindStore                           (* makeInMemoryStore / store.bind(sock.ev) *)
| EOn (event : string).                (* sock.ev.on(event, listener) *)

(** ** The world: ambient variables, credential store, trace *)

Record World : Type := mkWorld {
  latestQRCodeDataUrl : option string;   (* null or a data URL *)
  qrLastUpdated : option string;         (* null or an ISO timestamp *)
  connectionStatus : JsVal;
  auth_present : bool;                   (* AUTH_DIR / AUTH_FILE exists on disk *)
  trace : list Effect
}.

Definition set_latestQRCodeDataUrl (x : option string) (w : World) : World :=
  mkWorld x (qrLastUpdated w) (connectionStatus w) (auth_present w) (trace w).
Definition set_qrLastUpdated (x : option string) (w : World) : World :=
  mkWorld (latestQRCodeDataUrl w) x (connectionStatus w) (auth_present w) (trace w).
Definition set_connectionStatus (x : JsVal) (w : World) : World :=
  mkWorld (latestQRCodeDataUrl w) (qrLastUpdated w) x (auth_present w) (trace w).
Definition set_auth_present (x : bool) (w : World) : World :=
  mkWorld (latestQRCodeDataUrl w) (qrLastUpdated w) (connectionStatus w) x (trace w).
Definition add_effect (e : Effect) (w : World) : World :=
  mkWorld (latestQRCodeDataUrl w) (qrLastUpdated w) (connectionStatus w)
          (auth_present w) (trace w ++ [e]).

(** The world [w] after the calls [l], with the ambient variables and the
    presence of the store as given. *)
Definition after (w : World) (img stamp : option string) (status : JsVal)
                 (present : bool) (l : list Effect) : World :=
  mkWorld img stamp status present (trace w ++ l).

(** The three [let] declarations at the top of both files. *)
Definition initial_world (store_on_disk : bool) : World :=
  mkWorld None None (JStr "starting") store_on_disk [].

(** ** Completions and the monad *)

(** A statement completes normally, throws (or, for an awaited promise,
    rejects), or is suspended on a promise that never settles. *)
Inductive Completion (A : Type) : Type :=
| Normal (a : A)
| Throws (e : JsVal)
| Suspended.
Arguments Normal {A} a.
Arguments Throws {A} e.
Arguments Suspended {A}.

Definition M (A : Type) : Type := World -> Completion A * World.

Definition ret {A} (a : A) : M A := fun w => (Normal a, w).

Definition bind {A B} (m : M A) (k : A -> M B) : M B :=
  fun w =>
    match m w with
    | (Normal a, w') => k a w'
    | (Throws e, w') => (Throws e, w')
    | (Suspended, w') => (Suspended, w')
    end.

Definition throw {A} (e : JsVal) : M A := fun w => (Throws e, w).

(** [try { body } catch (e) { handler e }]: assignments made by [body] before
    the throw stay; a suspended body is not resumed by the handler. *)
Definition try_catch {A} (body : M A) (handler : JsVal -> M A) : M A :=
  fun w =>
    match body w with
    | (Throws e, w') => handler e w'
    | r => r
    end.

Definition gets {A} (f : World -> A) : M A := fun w => (Normal (f w), w).
Definition modify (f : World -> World) : M unit := fun w => (Normal tt, f w).
Definition emit (e : Effect) : M unit := modify (add_effect e).

(** The outcome of a call whose answer comes from the outside. *)
Definition settle {A} (c : Completion A) : M A := fun w => (c, w).

Notation "x <- m ;; k" := (bind m (fun x => k))
  (at level 61, m at next level, right associativity).
Notation "m ;; k" := (bind m (fun _ => k))
  (at level 61, right associativity).

Definition when (b : bool) (m : M unit) : M unit := if b then m else ret tt.

(** Plain member access [v.name]: a [TypeError] on null and undefined. *)
Definition member (v : JsVal) (name : string) : M JsVal :=
  if nullish v then throw TypeError else ret (prop v name).

(** Short-circuit [a && b]. *)
Definition js_and (a : JsVal) (b : M JsVal) : M JsVal :=
  if truthy a then b else ret a.

Definition logger (lvl : Level) (msg : string) (args : list JsVal) : M unit :=
  emit (ELog lvl msg args).
Definition setTimeout_start (delay : Z) : M unit := emit (ESetTimeout delay).

(** A call that returns or throws, a promise that resolves or rejects. *)
Inductive Result (A : Type) : Type :=
| Ok (a : A)
| Failed (e : JsVal).
Arguments Ok {A} a.
Arguments Failed {A} e.

(** A promise as seen by [await]. *)
Inductive Promise (A : Type) : Type :=
| Settled (r : Result A)
| NeverSettles.
Arguments Settled {A} r.
Arguments NeverSettles {A}.

Definition lift {A} (r : Result A) : M A :=
  match r with
  | Ok a => ret a
  | Failed e => throw e
  end.

Definition await {A} (p : Promise A) : M A :=
  match p with
  | Settled r => lift r
  | NeverSettles => settle Suspended
  end.

(** ** What the program takes from its libraries *)

(** The members of Baileys' [DisconnectReason] enum that the program reads. *)
Record DisconnectReasonT : Type := mkDisconnectReason {
  badSession : Z;
  loggedOut : Z;
  restartRequired : Z;
  connectionClosed : Z
}.

(** The values of the enum in the Baileys releases the files were written for. *)
Definition baileys_DisconnectReason : DisconnectReasonT :=
  mkDisconnectReason 500 401 515 428.

(** No member of the second bucket ([restartRequired], [connectionClosed])
    has the value of a member of the first ([badSession], [loggedOut]). *)
Definition buckets_disjoint (d : DisconnectReasonT) : bool :=
  negb (restartRequired d =? badSession d)
  && negb (restartRequired d =? loggedOut d)
  && negb (connectionClosed d =? badSession d)
  && negb (connectionClosed d =? loggedOut d).

(** The two entry files. *)
Inductive Variant : Type :=
| MultiFile     (* index.js, startSocket, AUTH_DIR *)
| SingleFile.   (* second entry file, startSock, AUTH_FILE *)

(** Answers of the outside during one ['connection.update'] listener run. *)
Record Env : Type := mkEnv {
  date_qr : string;      (* new Date().toISOString() after the encoding *)
  date_open : string;    (* new Date().toISOString() on 'open' *)
  fs_denied : bool       (* the operating system refuses to remove the store *)
}.

(** ** File-system calls on the credential store *)

Definition EPERM : JsVal := JObj [("code", JStr "EPERM")].
Definition ENOENT : JsVal := JObj [("code", JStr "ENOENT")].

Definition fs_existsSync : M bool :=
  emit EExistsSync ;; gets auth_present.

(** [fs.rmSync(AUTH_DIR, { recursive: true, force: true })]: with [force] a
    missing path is ignored. *)
Definition fs_rmSync (env : Env) : M unit :=
  emit ERmSync ;;
  present <- gets auth_present ;;
  if negb present then ret tt
  else if fs_denied env then throw EPERM
  else modify (set_auth_present false).

(** [fs.unlinkSync(AUTH_FILE)]: a missing path is an error. *)
Definition fs_unlinkSync (env : Env) : M unit :=
  emit EUnlinkSync ;;
  present <- gets auth_present ;;
  if negb present then throw ENOENT
  else if fs_denied env then throw EPERM
  else modify (set_auth_present false).

(** The texts that differ between the two files. *)
Definition msg_qr_error (v : Variant) : string :=
  match v with
  | MultiFile => "Erreur conversion QR -> DataURL:"
  | SingleFile => "Erreur génération QR DataURL:"
  end.

Definition msg_session_invalid (v : Variant) : string :=
  match v with
  | MultiFile => "Session invalide. Suppression du dossier d'auth et redémarrage pour re-login."
  | SingleFile => "Session invalide. Suppression du fichier d'auth et redémarrage pour re-login."
  end.

Definition msg_delete_error (v : Variant) : string :=
  match v with
  | MultiFile => "Impossible de supprimer auth dir:"
  | SingleFile => "Impossible de supprimer le fichier auth:"
  end.

Definition msg_version (v : Variant) : string :=
  match v with
  | MultiFile => "Baileys version:"
  | SingleFile => "Baileys version fetched"
  end.

Definition msg_version_fallback (v : Variant) : string :=
  match v with
  | MultiFile => "Impossible de récupérer la dernière version de Baileys, fallback utilisé."
  | SingleFile => "Could not fetch latest baileys version, using fallback."
  end.

Definition msg_start_error (v : Variant) : string :=
  match v with
  | MultiFile => "Erreur startSocket():"
  | SingleFile => "Erreur startSock:"
  end.

Section Program.

Variable DisconnectReason : DisconnectReasonT.
(** [QRCode.toDataURL]: a local computation, it resolves or rejects. *)
Variable QRCode_toDataURL : JsVal -> Result string.

(** *** The ['connection.update'] listener *)

(** [if (qr) { try { ... } catch (qErr) { ... } }] *)
Definition qr_block (v : Variant) (env : Env) (qr : JsVal) : M unit :=
  when (truthy qr)
    (try_catch
       (url <- lift (QRCode_toDataURL qr) ;;
        modify (set_latestQRCodeDataUrl (Some url)) ;;
        modify (set_qrLastUpdated (Some (date_qr env))) ;;
        match v with
        | MultiFile =>
            modify (set_connectionStatus (JStr "qr-generated")) ;;
            logger Info "QR généré et exposé via HTTP /" []
        | SingleFile =>
            logger Info "QR généré et exposé via HTTP /" [] ;;
            modify (set_connectionStatus (JStr "qr-generated"))
        end)
       (fun qErr =>
          logger Error (msg_qr_error v) [qErr])).

(** [if (connection) { ... if (connection === 'open') { ... } }] *)
Definition connection_block (v : Variant) (env : Env) (connection : JsVal) : M unit :=
  when (truthy connection)
    (modify (set_connectionStatus connection) ;;
     logger Info "connection.update" [JObj [("connection", connection)]] ;;
     when (strict_eq connection (JStr "open"))
       match v with
       | MultiFile =>
           modify (set_latestQRCodeDataUrl None) ;;
           modify (set_qrLastUpdated (Some (date_open env))) ;;
           logger Info "Session ouverte. Auth saved." []
       | SingleFile =>
           logger Info "Connection ouverte — authentification réussie" [] ;;
           modify (set_latestQRCodeDataUrl None) ;;
           modify (set_qrLastUpdated (Some (date_open env)))
       end).

(** The deletion of the credential store in the first disconnect branch:
    [if (fs.existsSync(AUTH_DIR)) fs.rmSync(AUTH_DIR, ...)] in [index.js],
    [fs.unlinkSync(AUTH_FILE)] in the second file. *)
Definition delete_attempt (v : Variant) (env : Env) : M unit :=
  match v with
  | MultiFile => present <- fs_existsSync ;; when present (fs_rmSync env)
  | SingleFile => fs_unlinkSync env
  end.

(** [try { ... } catch (e) { logger.error(..., e) }] *)
Definition delete_auth (v : Variant) (env : Env) : M unit :=
  try_catch (delete_attempt v env)
            (fun e => logger Error (msg_delete_error v) [e]).

(** [lastDisconnect?.error?.output?.statusCode || lastDisconnect?.error?.statusCode] *)
Definition reason_code (lastDisconnect : JsVal) : JsVal :=
  let error := opt_prop lastDisconnect "error" in
  let a := opt_prop (opt_prop error "output") "statusCode" in
  if truthy a then a else opt_prop error "statusCode".

Definition is_bad_or_logged_out (code : JsVal) : bool :=
  strict_eq code (JNum (badSession DisconnectReason))
  || strict_eq code (JNum (loggedOut DisconnectReason)).

Definition is_restart_or_closed (code : JsVal) : bool :=
  strict_eq code (JNum (restartRequired DisconnectReason))
  || strict_eq code (JNum (connectionClosed DisconnectReason)).

(** [if (lastDisconnect && lastDisconnect.error) { ... }] *)
Definition disconnect_block (v : Variant) (env : Env) (lastDisconnect : JsVal) : M unit :=
  guard <- js_and lastDisconnect (member lastDisconnect "error") ;;
  when (truthy guard)
    (err <- member lastDisconnect "error" ;;
     has_output <- js_and err (member err "output") ;;
     shown <- (if truthy has_output
               then (output <- member err "output" ;; member output "payload")
               else ret err) ;;
     logger Warn "lastDisconnect:" [shown] ;;
     let code := reason_code lastDisconnect in
     if is_bad_or_logged_out code then
       (logger Warn (msg_session_invalid v) [] ;;
        delete_auth v env ;;
        setTimeout_start 2000)
     else if is_restart_or_closed code then
       (logger Info "Redémarrage du socket..." [] ;;
        setTimeout_start 2000)
     else
       (logger Info "Tentative de reconnexion dans 5s..." [] ;;
        setTimeout_start 5000)).

(** The body of the listener's [try].  The destructuring
    [const { connection, lastDisconnect, qr } = update] throws on null and
    undefined. *)
Definition connection_update_body (v : Variant) (env : Env) (update : JsVal) : M unit :=
  connection <- member update "connection" ;;
  lastDisconnect <- member update "lastDisconnect" ;;
  qr <- member update "qr" ;;
  qr_block v env qr ;;
  connection_block v env connection ;;
  disconnect_block v env lastDisconnect.

(** The whole listener: [async (update) => { try { ... } catch (e) { ... } }]. *)
Definition on_connection_update (v : Variant) (env : Env) (update : JsVal) : M unit :=
  try_catch
    (connection_update_body v env update)
    (fun e => logger Error "Erreur dans connection.update handler:" [e]).

(** *** The ['creds.update'] listener *)

(** [sock.ev.on('creds.update', saveCreds)] (resp. [saveState]): the listener
    is the library's saver itself, with nothing of the program around it.
    [save] is the outcome of that call. *)
Definition on_creds_update (save : Result unit) : M unit :=
  emit ESaveAuth ;;
  lift save ;;
  modify (set_auth_present true).

(** *** The ['messages.upsert'] listener *)

(** The value of a decimal digit. *)
Definition digit_of (c : ascii) : option N :=
  let n := N_of_ascii c in
  if ((48 <=? n) && (n <=? 57))%N then Some (n - 48)%N else None.

Fixpoint digits_value (s : string) (acc : N) : option N :=
  match s with
  | EmptyString => Some acc
  | String c rest =>
      match digit_of c with
      | Some d => digits_value rest (10 * acc + d)%N
      | None => None
      end
  end.

(** A property key that is an array index: the canonical decimal writing
    (no sign, no leading zero) of an integer from 0 to 2^32 - 2. *)
Definition array_index (k : string) : option N :=
  match k with
  | EmptyString => None
  | String c rest =>
      if Ascii.eqb c "0"%char then
        match rest with
        | EmptyString => Some 0%N
        | String _ _ => None
        end
      else
        match digits_value k 0%N with
        | Some n => if (n <=? 4294967294)%N then Some n else None
        | None => None
        end
  end.

(** The key with the least array index among the fields, if any. *)
Fixpoint least_index (fields : list (string * JsVal)) : option (N * string) :=
  match fields with
  | [] => None
  | (k, _) :: rest =>
      match array_index k, least_index rest with
      | Some n, Some (n', k') => if (n <=? n')%N then Some (n, k) else Some (n', k')
      | Some n, None => Some (n, k)
      | None, r => r
      end
  end.

(** [Object.keys(x)[0]] for a truthy [x].  [Object.keys] lists the keys that
    are array indices first, in ascending numeric order, and the other keys
    after them in insertion order; an array has the key ["0"] when it is not
    empty, a string likewise, and a number or a boolean has no key. *)
Definition first_key (x : JsVal) : JsVal :=
  match x with
  | JObj fields =>
      match least_index fields with
      | Some (_, k) => JStr k
      | None =>
          match fields with
          | (k, _) :: _ => JStr k
          | [] => JUndefined
          end
      end
  | JArr (_ :: _) => JStr "0"
  | JStr (String _ _) => JStr "0"
  | _ => JUndefined
  end.

Fixpoint for_each (body : JsVal -> M unit) (elems : list JsVal) : M unit :=
  match elems with
  | [] => ret tt
  | x :: rest => body x ;; for_each body rest
  end.

(** One turn of [for (const msg of messages) { ... }]. *)
Definition message_turn (v : Variant) (msg : JsVal) : M unit :=
  message <- member msg "message" ;;
  if negb (truthy message) then ret tt
  else
    (key <- member msg "key" ;;
     from <- member key "remoteJid" ;;
     logger Info "Message reçu"
       [JObj [("from", from);
              (match v with MultiFile => "type" | SingleFile => "content" end,
               first_key message)]]).

Definition messages_upsert_body (v : Variant) (m : JsVal) : M unit :=
  ms <- member m "messages" ;;
  let messages := if truthy ms then ms else JArr [] in
  match messages with
  | JArr elems => for_each (message_turn v) elems
  | JStr _ => ret tt           (* its characters have no [message] *)
  | _ => throw TypeError       (* a number, a boolean, a plain object *)
  end.

Definition on_messages_upsert (v : Variant) (m : JsVal) : M unit :=
  try_catch
    (messages_upsert_body v m)
    (fun err => logger Error "Erreur messages.upsert:" [err]).

(** *** [startSocket] / [startSock] *)

(** Answers of the outside during one run of [start]. *)
Record StartEnv : Type := mkStartEnv {
  fetch_version : Promise JsVal;        (* fetchLatestBaileysVersion() *)
  load_auth : Result unit;              (* use{Multi,Single}FileAuthState(...) *)
  make_socket : Result unit;            (* makeWASocket({...}) *)
  bind_store : option (Result unit)     (* None: no in-memory store to bind *)
}.

Definition fallback_version : JsVal := JArr [JNum 2; JNum 2204; JNum 13].

(** [let version = [2, 2204, 13]; try { ... } catch (err) { ... }] *)
Definition resolve_version (v : Variant) (senv : StartEnv) : M JsVal :=
  try_catch
    (fetched <- await (fetch_version senv) ;;
     usable <- js_and fetched
                 (fv <- member fetched "version" ;; ret (JBool (isArray fv))) ;;
     version <- (if truthy usable then member fetched "version"
                 else ret fallback_version) ;;
     logger Info (msg_version v) [JObj [("version", version)]] ;;
     ret version)
    (fun err =>
       logger Warn (msg_version_fallback v) [] ;;
       ret fallback_version).

(** [await useMultiFileAuthState(AUTH_DIR)] creates the directory when it is
    missing. *)
Definition useMultiFileAuthState (senv : StartEnv) : M unit :=
  emit ELoadAuth ;;
  lift (load_auth senv) ;;
  modify (set_auth_present true).

(** [useSingleFileAuthState(AUTH_FILE)] reads the file when it exists. *)
Definition useSingleFileAuthState (senv : StartEnv) : M unit :=
  emit ELoadAuth ;;
  lift (load_auth senv).

Definition store_bind (senv : StartEnv) : M unit :=
  match bind_store senv with
  | None => ret tt
  | Some r => emit EBindStore ;; lift r
  end.

Definition sock_of (version : JsVal) : JsVal := JObj [("version", version)].

(** The body of the outer [try] of [start]. *)
Definition start_body (v : Variant) (senv : StartEnv) : M JsVal :=
  modify (set_connectionStatus (JStr "fetching-baileys-version")) ;;
  version <- resolve_version v senv ;;
  match v with
  | MultiFile => useMultiFileAuthState senv
  | SingleFile => ret tt
  end ;;
  modify (set_connectionStatus (JStr "starting-socket")) ;;
  emit (EMakeWASocket version) ;;
  lift (make_socket senv) ;;
  match v with
  | MultiFile =>
      emit (EOn "creds.update") ;;
      try_catch (store_bind senv)
                (fun e => logger Debug "store non chargé:" [e])
  | SingleFile =>
      store_bind senv ;;
      emit (EOn "creds.update")
  end ;;
  emit (EOn "connection.update") ;;
  emit (EOn "messages.upsert") ;;
  match v with
  | MultiFile => logger Info "Socket initialisé." []
  | SingleFile => ret tt
  end ;;
  ret (sock_of version).

(** [async function start() { try { ... return sock; } catch (err) { ... } }] *)
Definition start (v : Variant) (senv : StartEnv) : M JsVal :=
  try_catch
    (start_body v senv)
    (fun err =>
       logger Error (msg_start_error v) [err] ;;
       setTimeout_start 5000 ;;
       ret JUndefined).

(** *** Module level of the second file *)

(** The evaluation of a module-level statement: it goes on to the next
    statement, or it ends the process with an exception that no [catch]
    received. *)
Inductive Process : Type :=
| Running (w : World)
| Exited (uncaught : JsVal) (w : World).

(** [const { state, saveState } = useSingleFileAuthState(AUTH_FILE)] stands
    at module level in the second file, outside every [try], before the HTTP
    server is started and before [startSock] is called. *)
Definition load_at_module_level (senv : StartEnv) (store_on_disk : bool) : Process :=
  match useSingleFileAuthState senv (initial_world store_on_disk) with
  | (Throws e, w1) => Exited e w1
  | (_, w1) => Running w1
  end.

(** *** What the HTTP routes publish *)

Record Health : Type := mkHealth {
  health_status : JsVal;
  health_qrLastUpdated : option string
}.

(** [GET /health] *)
Definition health (w : World) : Health :=
  mkHealth (connectionStatus w) (qrLastUpdated w).

Inductive Page : Type :=
| WaitingPage (status : JsVal)
| QrPage (status : JsVal) (lastUpdated : option string) (dataUrl : string).

(** [GET /]: [if (!latestQRCodeDataUrl)] the waiting page, else the image. *)
Definition root_page (w : World) : Page :=
  match latestQRCodeDataUrl w with
  | None => WaitingPage (connectionStatus w)
  | Some url =>
      if String.eqb url "" then WaitingPage (connectionStatus w)
      else QrPage (connectionStatus w) (qrLastUpdated w) url
  end.

(** *** Runs of the process *)

Inductive Step : Type :=
| SStart (senv : StartEnv)                          (* first call, or a timer firing *)
| SConnectionUpdate (env : Env) (update : JsVal)
| SCredsUpdate (save : Result unit)
| SMessagesUpsert (m : JsVal).

Definition step (v : Variant) (s : Step) (w : World) : World :=
  match s with
  | SStart senv => snd (start v senv w)
  | SConnectionUpdate env update => snd (on_connection_update v env update w)
  | SCredsUpdate save => snd (on_creds_update save w)
  | SMessagesUpsert m => snd (on_messages_upsert v m w)
  end.

Definition run (v : Variant) (steps : list Step) (w : World) : World :=
  fold_left (fun acc s => step v s acc) steps w.

End Program.

(** ** Reading the trace *)

(** The delays of the restarts scheduled, in order. *)
Definition scheduled (t : list Effect) : list Z :=
  flat_map (fun e => match e with ESetTimeout d => [d] | _ => [] end) t.

(** The versions given to [makeWASocket], in order. *)
Definition sockets (t : list Effect) : list JsVal :=
  flat_map (fun e => match e with EMakeWASocket ver => [ver] | _ => [] end) t.

Definition is_deletion (e : Effect) : bool :=
  match e with
  | ERmSync | EUnlinkSync => true
  | _ => false
  end.

(** The number of calls that remove the credential store. *)
Definition deletions (t : list Effect) : nat :=
  List.length (filter is_deletion t).

Definition touches_store (e : Effect) : bool :=
  match e with
  | ERmSync | EUnlinkSync | ELoadAuth | ESaveAuth => true
  | _ => false
  end.

(** The calls that load, write or remove the credential store. *)
Definition store_calls (t : list Effect) : list Effect :=
  filter touches_store t.

Definition is_log (lvl : Level) (e : Effect) : bool :=
  match e, lvl with
  | ELog Debug _ _, Debug | ELog Info _ _, Info
  | ELog Warn _ _, Warn | ELog Error _ _, Error => true
  | _, _ => false
  end.

(** The number of log entries of a level. *)
Definition logged (lvl : Level) (t : list Effect) : nat :=
  List.length (filter (is_log lvl) t).

(** ** Reading an update *)

(** [lastDisconnect && lastDisconnect.error] is truthy: the update carries a
    disconnect. *)
Definition is_disconnect (update : JsVal) : bool :=
  let lastDisconnect := prop update "lastDisconnect" in
  truthy lastDisconnect && truthy (prop lastDisconnect "error").

(** The reason code the listener computes for an update. *)
Definition code_of (update : JsVal) : JsVal :=
  reason_code (prop update "lastDisconnect").

(** The update carries a pairing challenge: [if (qr)]. *)
Definition has_challenge (update : JsVal) : bool := truthy (prop update "qr").

(** The update reports the session fully established:
    [connection === 'open']. *)
Definition reports_open (update : JsVal) : bool :=
  strict_eq (prop update "connection") (JStr "open").

(** The step is a ['connection.update'] whose update carries a challenge. *)
Definition carries_challenge (s : Step) : bool :=
  match s with
  | SConnectionUpdate _ update => has_challenge update
  | _ => false
  end.

(** ** Values the program computes on the way *)

(** The version [start] works with once the lookup has answered [fetched]:
    [if (fetched && Array.isArray(fetched.version)) version = fetched.version]. *)
Definition chosen_version (fetched : JsVal) : JsVal :=
  if truthy fetched && isArray (prop fetched "version")
  then prop fetched "version"
  else fallback_version.

(** The same, for a lookup that resolved or rejected. *)
Definition resolved_version (r : Result JsVal) : JsVal :=
  match r with
  | Ok fetched => chosen_version fetched
  | Failed _ => fallback_version
  end.

(** What the block logs first: [err && err.output ? err.output.payload : err]. *)
Definition shown_error (err : JsVal) : JsVal :=
  if truthy (prop err "output") then prop (prop err "output") "payload" else err.

(** The file-system call itself fails: [rmSync] on a store the system will
    not remove, [unlinkSync] on a missing or protected file. *)
Definition delete_fails (v : Variant) (env : Env) (w : World) : bool :=
  match v with
  | MultiFile => auth_present w && fs_denied env
  | SingleFile => negb (auth_present w) || fs_denied env
  end.

(** The number of removal calls one run of the deletion makes. *)
Definition delete_calls (v : Variant) (w : World) : nat :=
  match v with
  | MultiFile => if auth_present w then 1%nat else 0%nat
  | SingleFile => 1%nat
  end.

(** ** Vocabulary for the proofs *)

(** A stretch of trace that holds nothing but log entries. *)
Definition only_logs (t : list Effect) : bool :=
  forallb (fun e => match e with ELog _ _ _ => true | _ => false end) t.

(** The computation [m] leaves the observation [f] of the world as it was. *)
Definition keeps {X A : Type} (f : World -> X) (m : M A) : Prop :=
  forall w, f (snd (m w)) = f w.

(** The computation [m] is never left suspended on a promise. *)
Definition settles {A : Type} (m : M A) : Prop :=
  forall w, fst (m w) <> Suspended.

(** The computation [m] always completes normally. *)
Definition total {A : Type} (m : M A) : Prop :=
  forall w, exists a, fst (m w) = Normal a.

(** ** The claims as first stated *)

(** "The credential store is deleted exactly once": between [w] and [w']
    one removal call was made and the store is gone. *)
Definition deleted_exactly_once (w w' : World) : Prop :=
  deletions (trace w') = S (deletions (trace w)) /\ auth_present w' = false.

(** "A disconnect event": the update reports the connection closed,
    [connection === 'close']. *)
Definition reports_close (update : JsVal) : bool :=
  strict_eq (prop update "connection") (JStr "close").

(** "A restart is scheduled after the delay": between [w] and [w'] one
    restart was scheduled, with that delay. *)
Definition restart_scheduled_at (delay : Z) (w w' : World) : Prop :=
  scheduled (trace w') = scheduled (trace w) ++ [delay].

(** "After a pairing event the snapshot holds exactly the most recently
    issued challenge": the image in [w'] is the encoding of the challenge of
    [update]. *)
Definition holds_challenge (enc : JsVal -> Result string) (update : JsVal)
                           (w' : World) : Prop :=
  exists url, enc (prop update "qr") = Ok url /\ latestQRCodeDataUrl w' = Some url.

(** ** Sample inputs *)

(** A stand-in for [QRCode.toDataURL] with its default options.  It
    rejects what the library rejects whatever the characters are: a value
    that is not a string (['Invalid data']), the empty string, and a string
    of more than 7089 bytes, which no symbol can hold (7089 digits is the
    largest capacity there is).  It encodes every string of at most 2331
    bytes, which always fits (the byte capacity of the largest symbol at the
    default error-correction level).  Between the two bounds the answer of
    the library depends on the mix of characters; such strings are taken as
    encoded here and no lemma uses one.  The data URL it answers stands for
    the image of the string.  Arrays of segments are not used and are
    rejected. *)
Definition sample_toDataURL (qr : JsVal) : Result string :=
  match qr with
  | JStr s =>
      if String.eqb s "" then Failed (JStr "No input text")
      else if (N.of_nat (String.length s) <=? 7089)%N
      then Ok ("data:image/png;base64," ++ s)%string
      else Failed (JStr "The amount of data is too big to be stored in a QR Code")
  | _ => Failed (JStr "Invalid data")
  end.

Fixpoint replicate (n : nat) (s : string) : string :=
  match n with
  | O => ""
  | S k => s ++ replicate k s
  end.

Definition sample_env : Env := mkEnv "2024-01-01T00:00:00.000Z" "2024-01-01T00:00:05.000Z" false.
Definition denied_env : Env := mkEnv "2024-01-01T00:00:00.000Z" "2024-01-01T00:00:05.000Z" true.

(** [{ connection: 'close', lastDisconnect: { error: { output: { statusCode } } } }] *)
Definition close_update (statusCode : JsVal) : JsVal :=
  JObj [("connection", JStr "close");
        ("lastDisconnect",
         JObj [("error", JObj [("output", JObj [("statusCode", statusCode)])])])].

Definition qr_update (challenge : string) : JsVal := JObj [("qr", JStr challenge)].
Definition open_update : JsVal := JObj [("connection", JStr "open")].

(** [{ key: { remoteJid }, message: { conversation } }] *)
Definition text_message (jid text : string) : JsVal :=
  JObj [("key", JObj [("remoteJid", JStr jid)]);
        ("message", JObj [("conversation", JStr text)])].

(** [{ messages: [...] }] *)
Definition upsert_of (elems : list JsVal) : JsVal :=
  JObj [("messages", JArr elems)].

(** ** Further readings of the code *)

(** The delay of the restart that a disconnect with reason [code] schedules,
    read off the three branches of the listener. *)
Definition restart_delay (DR : DisconnectReasonT) (code : JsVal) : Z :=
  if is_bad_or_logged_out DR code then 2000
  else if is_restart_or_closed DR code then 2000
  else 5000.

(** The restarts one run of the listener schedules for an update. *)
Definition restart_of (DR : DisconnectReasonT) (update : JsVal) : list Z :=
  if is_disconnect update then [restart_delay DR (code_of update)] else [].

(** The events a listener was registered for, in order. *)
Definition listeners (t : list Effect) : list string :=
  flat_map (fun e => match e with EOn ev => [ev] | _ => [] end) t.

Definition is_failed {A : Type} (r : Result A) : bool :=
  match r with
  | Ok _ => false
  | Failed _ => true
  end.

(** The calls of the body of [start] whose failure reaches the outer [catch]:
    the credential load and the socket construction in [index.js] (the store
    binding has its own [catch] there), the socket construction and the store
    binding in the second file (the credentials are loaded at module level). *)
Definition start_fails (v : Variant) (senv : StartEnv) : bool :=
  match v with
  | MultiFile => is_failed (load_auth senv) || is_failed (make_socket senv)
  | SingleFile =>
      is_failed (make_socket senv)
      || match bind_store senv with
         | Some r => is_failed r
         | None => false
         end
  end.

(** The failure of the store binding that [index.js] keeps to itself: the
    credential load and the socket construction went through, the binding
    failed, and its own [catch] received the failure. *)
Definition bind_swallowed (v : Variant) (senv : StartEnv) : bool :=
  match v with
  | MultiFile =>
      negb (is_failed (load_auth senv)) && negb (is_failed (make_socket senv))
      && match bind_store senv with
         | Some r => is_failed r
         | None => false
         end
  | SingleFile => false
  end.

(** The restarts one step of a run schedules. *)
Definition step_restarts (DR : DisconnectReasonT) (v : Variant) (s : Step) : list Z :=
  match s with
  | SStart senv =>
      match fetch_version senv with
      | Settled _ => if start_fails v senv then [5000] else []
      | NeverSettles => []
      end
  | SConnectionUpdate _ update => restart_of DR update
  | SCredsUpdate _ => []
  | SMessagesUpsert _ => []
  end.

(** A message the loop of ['messages.upsert'] gets through: it is neither
    null nor undefined and, when it has a [message], it has a [key]. *)
Definition passes (msg : JsVal) : bool :=
  negb (nullish msg)
  && (negb (truthy (prop msg "message")) || negb (nullish (prop msg "key"))).

(** A message the loop reports: [if (!msg.message) continue] lets it by. *)
Definition reported (msg : JsVal) : bool := truthy (prop msg "message").

(** The part of the body of [start] that follows the version resolution. *)
Definition start_from_load (v : Variant) (senv : StartEnv) (version : JsVal) : M JsVal :=
  match v with
  | MultiFile => useMultiFileAuthState senv
  | SingleFile => ret tt
  end ;;
  modify (set_connectionStatus (JStr "starting-socket")) ;;
  emit (EMakeWASocket version) ;;
  lift (make_socket senv) ;;
  match v with
  | MultiFile =>
      emit (EOn "creds.update") ;;
      try_catch (store_bind senv)
                (fun e => logger Debug "store non chargé:" [e])
  | SingleFile =>
      store_bind senv ;;
      emit (EOn "creds.update")
  end ;;
  emit (EOn "connection.update") ;;
  emit (EOn "messages.upsert") ;;
  match v with
  | MultiFile => logger Info "Socket initialisé." []
  | SingleFile => ret tt
  end ;;
  ret (sock_of version).

(** The store on disk after the load step of [start]. *)
Definition present_after_load (v : Variant) (senv : StartEnv) (before : bool) : bool :=
  match v with
  | MultiFile => if is_failed (load_auth senv) then before else true
  | SingleFile => before
  end.

(** The store calls of one run of [start] that got past the lookup. *)
Definition load_calls (v : Variant) : list Effect :=
  match v with
  | MultiFile => [ELoadAuth]
  | SingleFile => []
  end.

(** The status [start] leaves behind once the lookup has settled. *)
Definition status_after_start (v : Variant) (senv : StartEnv) : JsVal :=
  match v with
  | MultiFile =>
      if is_failed (load_auth senv) then JStr "fetching-baileys-version"
      else JStr "starting-socket"
  | SingleFile => JStr "starting-socket"
  end.

(** The log entry of the loop of ['messages.upsert'] for one message. *)
Definition message_entry (v : Variant) (msg : JsVal) : Effect :=
  ELog Info "Message reçu"
       [JObj [("from", prop (prop msg "key") "remoteJid");
              (match v with MultiFile => "type" | SingleFile => "content" end,
               first_key (prop msg "message"))]].

(** The values of [JsVal] that [for (const msg of messages)] refuses with a
    [TypeError]: numbers, booleans and plain objects, which have no
    iterator. *)
Definition not_iterable (x : JsVal) : bool :=
  match x with
  | JBool _ | JNum _ | JNaN | JObj _ => true
  | _ => false
  end.

(** The computation [m] only adds to the trace, and only calls that
    satisfy [P]. *)
Definition emits {A : Type} (P : Effect -> bool) (m : M A) : Prop :=
  forall w, exists l, trace (snd (m w)) = trace w ++ l /\ forallb P l = true.

(** A call that builds no socket and registers no listener. *)
Definition inert (e : Effect) : bool :=
  match e with
  | EMakeWASocket _ | EOn _ => false
  | _ => true
  end.

(** The listeners one step of a run registers. *)
Definition step_listeners (v : Variant) (s : Step) : list string :=
  match s with
  | SStart senv =>
      match fetch_version senv with
      | Settled _ =>
          if start_fails v senv then []
          else ["creds.update"; "connection.update"; "messages.upsert"]
      | NeverSettles => []
      end
  | _ => []
  end.

(** * Properties *)

(** ** Values *)

Lemma truthy_not_nullish (x : JsVal) : truthy x = true -> nullish x = false.
Proof. destruct x; simpl; intros H; try reflexivity; discriminate H. Qed.

Lemma prop_of_nullish (x : JsVal) (name : string) :
  nullish x = true -> prop x name = JUndefined.
Proof. destruct x; simpl; intros H; try reflexivity; discriminate H. Qed.

Lemma strict_eq_str (x : JsVal) (s : string) :
  strict_eq x (JStr s) = true -> x = JStr s.
Proof.
  destruct x; simpl; intros H; try discriminate H.
  apply String.eqb_eq in H. now subst.
Qed.

Lemma strict_eq_num (x : JsVal) (n : Z) :
  strict_eq x (JNum n) = true -> x = JNum n.
Proof.
  destruct x; simpl; intros H; try discriminate H.
  apply Z.eqb_eq in H. now subst.
Qed.

(** A disconnect or a pairing challenge can only be read from an update that
    is neither null nor undefined, so the destructuring does not throw. *)
Lemma is_disconnect_not_nullish (update : JsVal) :
  is_disconnect update = true -> nullish update = false.
Proof.
  unfold is_disconnect. destruct (nullish update) eqn:E; [|reflexivity].
  rewrite (prop_of_nullish _ _ E). simpl. intros H; discriminate H.
Qed.

Lemma has_challenge_not_nullish (update : JsVal) :
  has_challenge update = true -> nullish update = false.
Proof.
  unfold has_challenge. destruct (nullish update) eqn:E; [|reflexivity].
  rewrite (prop_of_nullish _ _ E). simpl. intros H; discriminate H.
Qed.

Lemma reports_open_not_nullish (update : JsVal) :
  reports_open update = true -> nullish update = false.
Proof.
  unfold reports_open. destruct (nullish update) eqn:E; [|reflexivity].
  rewrite (prop_of_nullish _ _ E). simpl. intros H; discriminate H.
Qed.

(** ** Trace readers over appended traces *)

Lemma scheduled_app (a b : list Effect) :
  scheduled (a ++ b) = scheduled a ++ scheduled b.
Proof. unfold scheduled. apply flat_map_app. Qed.

Lemma sockets_app (a b : list Effect) :
  sockets (a ++ b) = sockets a ++ sockets b.
Proof. unfold sockets. apply flat_map_app. Qed.

Lemma deletions_app (a b : list Effect) :
  deletions (a ++ b) = (deletions a + deletions b)%nat.
Proof. unfold deletions. now rewrite filter_app, length_app. Qed.

Lemma store_calls_app (a b : list Effect) :
  store_calls (a ++ b) = store_calls a ++ store_calls b.
Proof. unfold store_calls. apply filter_app. Qed.

Lemma logged_app (lvl : Level) (a b : list Effect) :
  logged lvl (a ++ b) = (logged lvl a + logged lvl b)%nat.
Proof. unfold logged. now rewrite filter_app, length_app. Qed.

(** ** The monad *)

Lemma try_catch_bind_normal {A B} (m : M A) (k : A -> M B) (h : JsVal -> M B)
      (w w' : World) (a : A) :
  m w = (Normal a, w') -> try_catch (bind m k) h w = try_catch (k a) h w'.
Proof. unfold try_catch, bind. now intros ->. Qed.

Lemma try_catch_throws {A} (m : M A) (h : JsVal -> M A) (w w' : World) (e : JsVal) :
  m w = (Throws e, w') -> try_catch m h w = h e w'.
Proof. unfold try_catch. now intros ->. Qed.

Ltac run_monad :=
  cbv [bind ret throw try_catch gets modify emit logger setTimeout_start
       when lift await settle member js_and
       set_latestQRCodeDataUrl set_qrLastUpdated set_connectionStatus
       set_auth_present add_effect];
  simpl.

(** Two worlds are equal up to the bracketing of the trace. *)
Ltac same_world :=
  run_monad; unfold after; simpl; rewrite <- ?app_assoc; simpl; reflexivity.

(** ** The three blocks of the ['connection.update'] listener *)

Section Blocks.

Variable DR : DisconnectReasonT.
Variable enc : JsVal -> Result string.

Lemma qr_block_falsy v env qr w :
  truthy qr = false -> qr_block enc v env qr w = (Normal tt, w).
Proof. unfold qr_block. intros ->. reflexivity. Qed.

Lemma qr_block_resolved v env qr w url :
  truthy qr = true -> enc qr = Ok url ->
  qr_block enc v env qr w =
  (Normal tt,
   after w (Some url) (Some (date_qr env)) (JStr "qr-generated") (auth_present w)
         [ELog Info "QR généré et exposé via HTTP /" []]).
Proof.
  unfold qr_block. intros -> H. run_monad. rewrite H.
  destruct v; reflexivity.
Qed.

Lemma qr_block_rejected v env qr w e :
  truthy qr = true -> enc qr = Failed e ->
  qr_block enc v env qr w =
  (Normal tt, add_effect (ELog Error (msg_qr_error v) [e]) w).
Proof.
  unfold qr_block. intros -> H. run_monad. rewrite H. reflexivity.
Qed.

Lemma connection_block_falsy v env c w :
  truthy c = false -> connection_block v env c w = (Normal tt, w).
Proof. unfold connection_block. intros ->. reflexivity. Qed.

Lemma connection_block_other v env c w :
  truthy c = true -> strict_eq c (JStr "open") = false ->
  connection_block v env c w =
  (Normal tt,
   after w (latestQRCodeDataUrl w) (qrLastUpdated w) c (auth_present w)
         [ELog Info "connection.update" [JObj [("connection", c)]]]).
Proof.
  unfold connection_block. intros -> H. run_monad. rewrite H. reflexivity.
Qed.

Lemma connection_block_open v env c w :
  strict_eq c (JStr "open") = true ->
  exists l,
    connection_block v env c w =
    (Normal tt,
     after w None (Some (date_open env)) (JStr "open") (auth_present w) l)
    /\ scheduled l = [] /\ store_calls l = [] /\ sockets l = [].
Proof.
  intros H. apply strict_eq_str in H. subst c.
  destruct v.
  - exists [ELog Info "connection.update" [JObj [("connection", JStr "open")]];
            ELog Info "Session ouverte. Auth saved." []].
    split; [cbv [connection_block]; same_world | repeat split].
  - exists [ELog Info "connection.update" [JObj [("connection", JStr "open")]];
            ELog Info "Connection ouverte — authentification réussie" []].
    split; [cbv [connection_block]; same_world | repeat split].
Qed.

(** The pairing and connection blocks only write the ambient variables and
    the log. *)
Lemma qr_block_frame v env qr w :
  exists l,
    fst (qr_block enc v env qr w) = Normal tt
    /\ trace (snd (qr_block enc v env qr w)) = trace w ++ l
    /\ only_logs l = true
    /\ auth_present (snd (qr_block enc v env qr w)) = auth_present w.
Proof.
  destruct (truthy qr) eqn:Hq.
  - destruct (enc qr) as [url|e] eqn:He.
    + rewrite (qr_block_resolved v env qr w url Hq He). simpl. eauto.
    + rewrite (qr_block_rejected v env qr w e Hq He). simpl. eauto.
  - rewrite (qr_block_falsy v env qr w Hq). exists []. simpl.
    now rewrite app_nil_r.
Qed.

Lemma connection_block_frame v env c w :
  exists l,
    fst (connection_block v env c w) = Normal tt
    /\ trace (snd (connection_block v env c w)) = trace w ++ l
    /\ only_logs l = true
    /\ auth_present (snd (connection_block v env c w)) = auth_present w.
Proof.
  destruct (truthy c) eqn:Hc.
  - destruct (strict_eq c (JStr "open")) eqn:Ho.
    + apply strict_eq_str in Ho. subst c.
      destruct v; cbv [connection_block]; run_monad; rewrite <- ?app_assoc;
        simpl; eauto.
    + rewrite (connection_block_other v env c w Hc Ho). simpl. eauto.
  - rewrite (connection_block_falsy v env c w Hc). exists []. simpl.
    now rewrite app_nil_r.
Qed.

(** *** Deleting the credential store *)

Lemma delete_auth_spec v env w :
  exists l,
    delete_auth v env w =
    (Normal tt,
     after w (latestQRCodeDataUrl w) (qrLastUpdated w) (connectionStatus w)
           (auth_present w && fs_denied env) l)
    /\ scheduled l = [] /\ sockets l = []
    /\ deletions l = delete_calls v w
    /\ logged Error l = (if delete_fails v env w then 1%nat else 0%nat)
    /\ (delete_fails v env w = true ->
        exists e, In (ELog Error (msg_delete_error v) [e]) l).
Proof.
  destruct w as [img stamp status present t].
  destruct v, present, (fs_denied env) eqn:Hd;
    cbv [delete_auth delete_attempt fs_existsSync fs_rmSync fs_unlinkSync
         delete_fails delete_calls];
    run_monad; rewrite ?Hd; simpl; unfold after; simpl;
    rewrite <- ?app_assoc; simpl; eexists; (split; [reflexivity|]);
    repeat split; try (intros H; discriminate H);
    intros _; eexists; simpl; eauto.
Qed.

(** *** The disconnect block *)

Lemma disconnect_block_no_disconnect v env ld w :
  truthy ld && truthy (prop ld "error") = false ->
  disconnect_block DR v env ld w = (Normal tt, w).
Proof.
  intros H. unfold disconnect_block. run_monad.
  destruct (truthy ld) eqn:Hl; simpl in *.
  - rewrite (truthy_not_nullish _ Hl). simpl. now rewrite H.
  - now rewrite Hl.
Qed.

Lemma disconnect_block_disconnect v env ld w :
  truthy ld && truthy (prop ld "error") = true ->
  disconnect_block DR v env ld w =
  (logger Warn "lastDisconnect:" [shown_error (prop ld "error")] ;;
   if is_bad_or_logged_out DR (reason_code ld) then
     (logger Warn (msg_session_invalid v) [] ;;
      delete_auth v env ;;
      setTimeout_start 2000)
   else if is_restart_or_closed DR (reason_code ld) then
     (logger Info "Redémarrage du socket..." [] ;;
      setTimeout_start 2000)
   else
     (logger Info "Tentative de reconnexion dans 5s..." [] ;;
      setTimeout_start 5000)) w.
Proof.
  intros H. apply andb_prop in H. destruct H as [Hl He].
  unfold disconnect_block, shown_error.
  cbv [bind js_and member ret when throw].
  rewrite Hl, (truthy_not_nullish _ Hl), He, (truthy_not_nullish _ He).
  destruct (truthy (prop (prop ld "error") "output")) eqn:Ho.
  - rewrite (truthy_not_nullish _ Ho). reflexivity.
  - reflexivity.
Qed.

Lemma disconnect_block_reinitializing v env ld w :
  truthy ld && truthy (prop ld "error") = true ->
  is_bad_or_logged_out DR (reason_code ld) = true ->
  exists l,
    disconnect_block DR v env ld w =
    (Normal tt,
     after w (latestQRCodeDataUrl w) (qrLastUpdated w) (connectionStatus w)
           (auth_present w && fs_denied env) l)
    /\ scheduled l = [2000] /\ sockets l = []
    /\ deletions l = delete_calls v w
    /\ logged Error l = (if delete_fails v env w then 1%nat else 0%nat)
    /\ (delete_fails v env w = true ->
        exists e, In (ELog Error (msg_delete_error v) [e]) l).
Proof.
  intros Hg Hb. rewrite (disconnect_block_disconnect v env ld w Hg), Hb.
  set (w2 := add_effect (ELog Warn (msg_session_invalid v) [])
               (add_effect (ELog Warn "lastDisconnect:"
                                  [shown_error (prop ld "error")]) w)).
  destruct (delete_auth_spec v env w2) as (l & E & Hs & Hk & Hd & Hl & Hi).
  exists ([ELog Warn "lastDisconnect:" [shown_error (prop ld "error")];
           ELog Warn (msg_session_invalid v) []] ++ l ++ [ESetTimeout 2000]).
  split.
  - cbv [bind logger emit modify setTimeout_start].
    change (add_effect _ (add_effect _ w)) with w2. rewrite E.
    unfold after, w2, add_effect. simpl. rewrite <- ?app_assoc. reflexivity.
  - rewrite !scheduled_app, !sockets_app, !deletions_app, !logged_app.
    rewrite Hs, Hk, Hd, Hl.
    change (delete_calls v w2) with (delete_calls v w).
    change (delete_fails v env w2) with (delete_fails v env w) in *.
    repeat split; try (cbn; now rewrite Nat.add_0_r).
    intros F. destruct (Hi F) as (e & I). exists e.
    simpl. right. right. apply in_or_app. now left.
Qed.

Lemma disconnect_block_restarting v env ld w :
  truthy ld && truthy (prop ld "error") = true ->
  is_bad_or_logged_out DR (reason_code ld) = false ->
  is_restart_or_closed DR (reason_code ld) = true ->
  disconnect_block DR v env ld w =
  (Normal tt,
   after w (latestQRCodeDataUrl w) (qrLastUpdated w) (connectionStatus w)
         (auth_present w)
         [ELog Warn "lastDisconnect:" [shown_error (prop ld "error")];
          ELog Info "Redémarrage du socket..." [];
          ESetTimeout 2000]).
Proof.
  intros Hg Hb Hr. rewrite (disconnect_block_disconnect v env ld w Hg), Hb, Hr.
  same_world.
Qed.

Lemma disconnect_block_retry_waiting v env ld w :
  truthy ld && truthy (prop ld "error") = true ->
  is_bad_or_logged_out DR (reason_code ld) = false ->
  is_restart_or_closed DR (reason_code ld) = false ->
  disconnect_block DR v env ld w =
  (Normal tt,
   after w (latestQRCodeDataUrl w) (qrLastUpdated w) (connectionStatus w)
         (auth_present w)
         [ELog Warn "lastDisconnect:" [shown_error (prop ld "error")];
          ELog Info "Tentative de reconnexion dans 5s..." [];
          ESetTimeout 5000]).
Proof.
  intros Hg Hb Hr. rewrite (disconnect_block_disconnect v env ld w Hg), Hb, Hr.
  same_world.
Qed.

(** The disconnect block always completes, and never writes the ambient
    variables. *)
Lemma disconnect_block_frame v env ld w :
  fst (disconnect_block DR v env ld w) = Normal tt
  /\ latestQRCodeDataUrl (snd (disconnect_block DR v env ld w)) = latestQRCodeDataUrl w
  /\ qrLastUpdated (snd (disconnect_block DR v env ld w)) = qrLastUpdated w
  /\ connectionStatus (snd (disconnect_block DR v env ld w)) = connectionStatus w.
Proof.
  destruct (truthy ld && truthy (prop ld "error")) eqn:Hg.
  - destruct (is_bad_or_logged_out DR (reason_code ld)) eqn:Hb.
    + destruct (disconnect_block_reinitializing v env ld w Hg Hb) as (l & E & _).
      rewrite E. simpl. auto.
    + destruct (is_restart_or_closed DR (reason_code ld)) eqn:Hr.
      * rewrite (disconnect_block_restarting v env ld w Hg Hb Hr). simpl. auto.
      * rewrite (disconnect_block_retry_waiting v env ld w Hg Hb Hr). simpl. auto.
  - rewrite (disconnect_block_no_disconnect v env ld w Hg). simpl. auto.
Qed.

(** *** The whole listener *)

(** On an update that is neither null nor undefined the listener is the
    sequence of its three blocks, and the outer [catch] is not entered. *)
Lemma on_connection_update_blocks v env update w :
  nullish update = false ->
  on_connection_update DR enc v env update w =
  disconnect_block DR v env (prop update "lastDisconnect")
    (snd (connection_block v env (prop update "connection")
            (snd (qr_block enc v env (prop update "qr") w)))).
Proof.
  intros Hn. unfold on_connection_update, connection_update_body.
  cbv [member]. rewrite Hn.
  destruct (qr_block_frame v env (prop update "qr") w) as (l1 & N1 & _).
  destruct (connection_block_frame v env (prop update "connection")
              (snd (qr_block enc v env (prop update "qr") w))) as (l2 & N2 & _).
  destruct (disconnect_block_frame v env (prop update "lastDisconnect")
              (snd (connection_block v env (prop update "connection")
                      (snd (qr_block enc v env (prop update "qr") w)))))
    as (N3 & _).
  cbv [try_catch bind ret].
  destruct (qr_block enc v env (prop update "qr") w) as [c1 w1].
  simpl in N1, N2, N3 |- *. subst c1.
  destruct (connection_block v env (prop update "connection") w1) as [c2 w2].
  simpl in N2, N3 |- *. subst c2.
  destruct (disconnect_block DR v env (prop update "lastDisconnect") w2) as [c3 w3].
  simpl in N3 |- *. subst c3. reflexivity.
Qed.

(** On null and undefined the destructuring throws and the outer [catch]
    logs it. *)
Lemma on_connection_update_nullish v env update w :
  nullish update = true ->
  on_connection_update DR enc v env update w =
  (Normal tt,
   add_effect (ELog Error "Erreur dans connection.update handler:" [TypeError]) w).
Proof.
  intros Hn. unfold on_connection_update, connection_update_body.
  cbv [member]. rewrite Hn. reflexivity.
Qed.

(** What the first two blocks leave for the disconnect block. *)
Lemma before_disconnect v env update w :
  exists l,
    trace (snd (connection_block v env (prop update "connection")
                  (snd (qr_block enc v env (prop update "qr") w)))) = trace w ++ l
    /\ only_logs l = true
    /\ auth_present (snd (connection_block v env (prop update "connection")
                  (snd (qr_block enc v env (prop update "qr") w)))) = auth_present w.
Proof.
  destruct (qr_block_frame v env (prop update "qr") w) as (l1 & _ & T1 & O1 & A1).
  destruct (connection_block_frame v env (prop update "connection")
              (snd (qr_block enc v env (prop update "qr") w)))
    as (l2 & _ & T2 & O2 & A2).
  exists (l1 ++ l2). rewrite T2, T1, A2, A1, app_assoc.
  repeat split. unfold only_logs in *. now rewrite forallb_app, O1, O2.
Qed.

End Blocks.

(** Log entries are neither timers, nor store calls, nor sockets. *)
Lemma only_logs_quiet (l : list Effect) :
  only_logs l = true ->
  scheduled l = [] /\ store_calls l = [] /\ deletions l = 0%nat /\ sockets l = [].
Proof.
  induction l as [|e l IH]; simpl; [repeat split|].
  destruct e; simpl; try discriminate.
  intros H. destruct (IH H) as (A & B & C & D).
  unfold scheduled, store_calls, deletions, sockets in *. simpl.
  now rewrite A, B, D.
Qed.

(** ** Disconnect classification *)

(** A code of the second bucket is not taken by the first branch. *)
Lemma restart_or_closed_not_bad (DR : DisconnectReasonT) (code : JsVal) :
  buckets_disjoint DR = true ->
  is_restart_or_closed DR code = true ->
  is_bad_or_logged_out DR code = false.
Proof.
  unfold buckets_disjoint, is_restart_or_closed, is_bad_or_logged_out.
  intros D H.
  repeat (apply andb_prop in D; destruct D as [D ?]).
  repeat match goal with
         | X : negb (_ =? _) = true |- _ =>
             apply negb_true_iff in X; apply Z.eqb_neq in X
         end.
  apply orb_prop in H.
  destruct H as [H|H]; apply strict_eq_num in H; subst code; simpl;
    apply orb_false_iff; split; apply Z.eqb_neq; congruence.
Qed.

(** A reason that is not a number falls in no named bucket. *)
Lemma non_numeric_code_unclassified (DR : DisconnectReasonT) (code : JsVal) :
  (forall n, code <> JNum n) ->
  is_bad_or_logged_out DR code = false /\ is_restart_or_closed DR code = false.
Proof.
  intros H. unfold is_bad_or_logged_out, is_restart_or_closed.
  destruct code; simpl; auto. now destruct (H n).
Qed.

(** An update without [lastDisconnect.error] is no disconnect for the
    listener: nothing is scheduled and the store is left alone. *)
Lemma no_disconnect_no_restart (DR : DisconnectReasonT) (enc : JsVal -> Result string)
      (v : Variant) (env : Env) (update : JsVal) (w : World) :
  is_disconnect update = false ->
  scheduled (trace (snd (on_connection_update DR enc v env update w))) =
    scheduled (trace w)
  /\ store_calls (trace (snd (on_connection_update DR enc v env update w))) =
     store_calls (trace w)
  /\ auth_present (snd (on_connection_update DR enc v env update w)) =
     auth_present w.
Proof.
  intros Hd. destruct (nullish update) eqn:Hn.
  - rewrite (on_connection_update_nullish DR enc v env update w Hn).
    unfold add_effect. simpl. rewrite scheduled_app, store_calls_app. simpl.
    now rewrite !app_nil_r.
  - rewrite (on_connection_update_blocks DR enc v env update w Hn).
    destruct (before_disconnect enc v env update w) as (l0 & T & O & A).
    destruct (only_logs_quiet l0 O) as (S0 & C0 & _ & _).
    rewrite (disconnect_block_no_disconnect DR v env _ _ Hd).
    simpl. rewrite T, A, scheduled_app, store_calls_app, S0, C0.
    now rewrite !app_nil_r.
Qed.

(** C1 (as amended).  On a disconnect whose reason code is [badSession] or
    [loggedOut] the listener completes, makes at most one call that removes
    the credential store (always one [unlinkSync] in the single-file
    program; one [rmSync] in the multi-file program when the store exists,
    none when it is already absent), leaves the store absent unless the
    system refused the removal, and schedules exactly one restart, 2000 ms
    later. *)
Theorem reinitializing_deletes_best_effort_and_restarts :
  forall (DR : DisconnectReasonT) (enc : JsVal -> Result string)
         (v : Variant) (env : Env) (update : JsVal) (w : World),
    is_disconnect update = true ->
    is_bad_or_logged_out DR (code_of update) = true ->
    let r := on_connection_update DR enc v env update w in
    fst r = Normal tt
    /\ scheduled (trace (snd r)) = scheduled (trace w) ++ [2000]
    /\ deletions (trace (snd r)) = (deletions (trace w) + delete_calls v w)%nat
    /\ auth_present (snd r) = auth_present w && fs_denied env.
Proof.
  intros DR enc v env update w Hd Hb r. subst r.
  rewrite (on_connection_update_blocks DR enc v env update w
             (is_disconnect_not_nullish _ Hd)).
  destruct (before_disconnect enc v env update w) as (l0 & T & O & A).
  destruct (only_logs_quiet l0 O) as (S0 & _ & D0 & _).
  destruct (disconnect_block_reinitializing DR v env _
              (snd (connection_block v env (prop update "connection")
                      (snd (qr_block enc v env (prop update "qr") w)))) Hd Hb)
    as (l & E & Hs & _ & Hdel & _).
  rewrite E. unfold after. simpl. rewrite T, A.
  rewrite !scheduled_app, !deletions_app, S0, D0, Hs, Hdel.
  rewrite app_nil_r.
  repeat split. unfold delete_calls. rewrite A. simpl. lia.
Qed.

(** C2.  On a disconnect whose reason code is [restartRequired] or
    [connectionClosed] the listener completes, leaves the credential store
    as it was (same presence on disk, no call that loads, writes or removes
    it) and schedules exactly one restart, 2000 ms later. *)
Theorem restarting_keeps_credentials_and_restarts :
  forall (DR : DisconnectReasonT) (enc : JsVal -> Result string)
         (v : Variant) (env : Env) (update : JsVal) (w : World),
    buckets_disjoint DR = true ->
    is_disconnect update = true ->
    is_restart_or_closed DR (code_of update) = true ->
    let r := on_connection_update DR enc v env update w in
    fst r = Normal tt
    /\ scheduled (trace (snd r)) = scheduled (trace w) ++ [2000]
    /\ auth_present (snd r) = auth_present w
    /\ store_calls (trace (snd r)) = store_calls (trace w).
Proof.
  intros DR enc v env update w Hdist Hd Hr r. subst r.
  pose proof (restart_or_closed_not_bad DR _ Hdist Hr) as Hb.
  rewrite (on_connection_update_blocks DR enc v env update w
             (is_disconnect_not_nullish _ Hd)).
  destruct (before_disconnect enc v env update w) as (l0 & T & O & A).
  destruct (only_logs_quiet l0 O) as (S0 & C0 & _ & _).
  rewrite (disconnect_block_restarting DR v env _ _ Hd Hb Hr).
  unfold after. simpl. rewrite T, A.
  rewrite !scheduled_app, !store_calls_app, S0, C0. simpl.
  now rewrite !app_nil_r.
Qed.

(** C3 (as amended).  On an update that carries a disconnect error (a
    truthy [lastDisconnect.error]) whose reason code is none of
    [badSession], [loggedOut], [restartRequired], [connectionClosed] (a code
    that is null, undefined, a string or any other number) the listener
    completes, leaves the credential store as it was and schedules exactly
    one restart, 5000 ms later.  On an update that carries no such error
    ([lastDisconnect] missing, or its [error] null or undefined) the
    listener schedules nothing and leaves the store as it was. *)
Theorem retry_waiting_keeps_credentials_and_waits :
  forall (DR : DisconnectReasonT) (enc : JsVal -> Result string)
         (v : Variant) (env : Env) (update : JsVal) (w : World),
    let r := on_connection_update DR enc v env update w in
    (is_disconnect update = true ->
     is_bad_or_logged_out DR (code_of update) = false ->
     is_restart_or_closed DR (code_of update) = false ->
     fst r = Normal tt
     /\ scheduled (trace (snd r)) = scheduled (trace w) ++ [5000]
     /\ auth_present (snd r) = auth_present w
     /\ store_calls (trace (snd r)) = store_calls (trace w))
    /\ (is_disconnect update = false ->
        scheduled (trace (snd r)) = scheduled (trace w)
        /\ auth_present (snd r) = auth_present w
        /\ store_calls (trace (snd r)) = store_calls (trace w)).
Proof.
  intros DR enc v env update w r. subst r. split.
  - intros Hd Hb Hr.
    rewrite (on_connection_update_blocks DR enc v env update w
               (is_disconnect_not_nullish _ Hd)).
    destruct (before_disconnect enc v env update w) as (l0 & T & O & A).
    destruct (only_logs_quiet l0 O) as (S0 & C0 & _ & _).
    rewrite (disconnect_block_retry_waiting DR v env _ _ Hd Hb Hr).
    unfold after. simpl. rewrite T, A.
    rewrite !scheduled_app, !store_calls_app, S0, C0. simpl.
    now rewrite !app_nil_r.
  - intros Hd.
    destruct (no_disconnect_no_restart DR enc v env update w Hd) as (S & C & A).
    now repeat split.
Qed.

(** C7.  The deletion of the credential store never lets a failure out: it
    completes whether the store exists or not, an absent store stays absent,
    and when the file-system call fails the failure is logged at error
    level; on a [badSession] or [loggedOut] disconnect the listener then
    still schedules the restart, 2000 ms later. *)
Theorem deletion_failure_is_logged_and_restart_proceeds :
  forall (DR : DisconnectReasonT) (enc : JsVal -> Result string)
         (v : Variant) (env : Env) (update : JsVal) (w : World),
    is_disconnect update = true ->
    is_bad_or_logged_out DR (code_of update) = true ->
    (fst (delete_auth v env w) = Normal tt
     /\ (auth_present w = false ->
         auth_present (snd (delete_auth v env w)) = false))
    /\ let r := on_connection_update DR enc v env update w in
       fst r = Normal tt
       /\ scheduled (trace (snd r)) = scheduled (trace w) ++ [2000]
       /\ (delete_fails v env w = true ->
           exists e l, trace (snd r) = trace w ++ l
                       /\ In (ELog Error (msg_delete_error v) [e]) l).
Proof.
  intros DR enc v env update w Hd Hb. split.
  - destruct (delete_auth_spec v env w) as (l & E & _). rewrite E. simpl.
    split; [reflexivity|]. now intros ->.
  - intros r. subst r.
    rewrite (on_connection_update_blocks DR enc v env update w
               (is_disconnect_not_nullish _ Hd)).
    destruct (before_disconnect enc v env update w) as (l0 & T & O & A).
    destruct (only_logs_quiet l0 O) as (S0 & _ & _ & _).
    destruct (disconnect_block_reinitializing DR v env _
                (snd (connection_block v env (prop update "connection")
                        (snd (qr_block enc v env (prop update "qr") w)))) Hd Hb)
      as (l & E & Hs & _ & _ & _ & Hi).
    rewrite E. unfold after. simpl. rewrite T.
    rewrite !scheduled_app, S0, Hs, app_nil_r.
    repeat split.
    intros F.
    assert (F' : delete_fails v env
                   (snd (connection_block v env (prop update "connection")
                           (snd (qr_block enc v env (prop update "qr") w)))) = true).
    { unfold delete_fails in *. now rewrite A. }
    destruct (Hi F') as (e & I).
    exists e, (l0 ++ l). split; [now rewrite app_assoc|].
    apply in_or_app. now right.
Qed.

(** ** What a computation leaves alone *)

Section Keeps.

Context {X : Type} (f : World -> X).

Lemma keeps_ret {A} (a : A) : keeps f (ret a).
Proof. intros w. reflexivity. Qed.

Lemma keeps_throw {A} (e : JsVal) : keeps f (@throw A e).
Proof. intros w. reflexivity. Qed.

Lemma keeps_settle {A} (c : Completion A) : keeps f (settle c).
Proof. intros w. reflexivity. Qed.

Lemma keeps_lift {A} (r : Result A) : keeps f (lift r).
Proof. destruct r; intros w; reflexivity. Qed.

Lemma keeps_await {A} (p : Promise A) : keeps f (await p).
Proof. destruct p as [r|]; [apply keeps_lift | apply keeps_settle]. Qed.

Lemma keeps_gets {A} (g : World -> A) : keeps f (gets g).
Proof. intros w. reflexivity. Qed.

Lemma keeps_emit (e : Effect) :
  (forall w, f (add_effect e w) = f w) -> keeps f (emit e).
Proof. intros H w. apply H. Qed.

Lemma keeps_logger lvl msg args :
  (forall w, f (add_effect (ELog lvl msg args) w) = f w) ->
  keeps f (logger lvl msg args).
Proof. apply keeps_emit. Qed.

Lemma keeps_setTimeout d :
  (forall w, f (add_effect (ESetTimeout d) w) = f w) ->
  keeps f (setTimeout_start d).
Proof. apply keeps_emit. Qed.

Lemma keeps_modify (g : World -> World) :
  (forall w, f (g w) = f w) -> keeps f (modify g).
Proof. intros H w. apply H. Qed.

Lemma keeps_bind {A B} (m : M A) (k : A -> M B) :
  keeps f m -> (forall a, keeps f (k a)) -> keeps f (bind m k).
Proof.
  intros Hm Hk w. unfold bind. specialize (Hm w).
  destruct (m w) as [[a| e |] w1]; simpl in *; try assumption.
  now rewrite Hk.
Qed.

Lemma keeps_try_catch {A} (m : M A) (h : JsVal -> M A) :
  keeps f m -> (forall e, keeps f (h e)) -> keeps f (try_catch m h).
Proof.
  intros Hm Hh w. unfold try_catch. specialize (Hm w).
  destruct (m w) as [[a| e |] w1]; simpl in *; try assumption.
  now rewrite Hh.
Qed.

Lemma keeps_when (b : bool) (m : M unit) : keeps f m -> keeps f (when b m).
Proof. destruct b; simpl; [trivial | intros _; apply keeps_ret]. Qed.

Lemma keeps_member x name : keeps f (member x name).
Proof. unfold member. destruct (nullish x); [apply keeps_throw | apply keeps_ret]. Qed.

Lemma keeps_js_and a (b : M JsVal) : keeps f b -> keeps f (js_and a b).
Proof. unfold js_and. destruct (truthy a); [trivial | intros _; apply keeps_ret]. Qed.

Lemma keeps_for_each (body : JsVal -> M unit) (elems : list JsVal) :
  (forall x, keeps f (body x)) -> keeps f (for_each body elems).
Proof.
  intros H. induction elems as [|x rest IH]; simpl.
  - apply keeps_ret.
  - apply keeps_bind; [apply H | intros _; exact IH].
Qed.

End Keeps.

Ltac keeps_tac :=
  repeat match goal with
    | |- keeps _ (match ?x with _ => _ end) => destruct x
    | |- keeps _ (if ?x then _ else _) => destruct x
    | |- keeps _ _ =>
        first
          [ apply keeps_bind | apply keeps_try_catch | apply keeps_when
          | apply keeps_js_and | apply keeps_for_each
          | apply keeps_ret | apply keeps_throw | apply keeps_settle
          | apply keeps_lift | apply keeps_await | apply keeps_gets
          | apply keeps_emit | apply keeps_logger | apply keeps_setTimeout
          | apply keeps_member | apply keeps_modify ]
    | |- forall _, _ => intro
    | |- _ = _ => reflexivity
    end.

(** [start], the saver and the message listener never write the pairing
    image. *)
Lemma start_keeps_image v senv : keeps latestQRCodeDataUrl (start v senv).
Proof.
  unfold start, start_body, resolve_version, useMultiFileAuthState, store_bind.
  keeps_tac.
Qed.

Lemma creds_update_keeps_image save : keeps latestQRCodeDataUrl (on_creds_update save).
Proof. unfold on_creds_update. keeps_tac. Qed.

Lemma messages_upsert_keeps_image v m :
  keeps latestQRCodeDataUrl (on_messages_upsert v m).
Proof.
  unfold on_messages_upsert, messages_upsert_body, message_turn. keeps_tac.
Qed.

(** [start] schedules nothing while its body runs, and the listeners other
    than the connection one never schedule. *)
Lemma start_body_keeps_scheduled v senv :
  keeps (fun w => scheduled (trace w)) (start_body v senv).
Proof.
  unfold start_body, resolve_version, useMultiFileAuthState, store_bind.
  keeps_tac;
    unfold add_effect; simpl; rewrite scheduled_app; simpl;
    now rewrite app_nil_r.
Qed.

(** ** The pairing snapshot *)

Section Snapshot.

Variable DR : DisconnectReasonT.
Variable enc : JsVal -> Result string.

(** The pairing image after one run of the listener, for any update. *)
Lemma image_after_update v env update w :
  latestQRCodeDataUrl (snd (on_connection_update DR enc v env update w)) =
  if reports_open update then None
  else if has_challenge update then
         match enc (prop update "qr") with
         | Ok url => Some url
         | Failed _ => latestQRCodeDataUrl w
         end
       else latestQRCodeDataUrl w.
Proof.
  destruct (nullish update) eqn:Hn.
  - rewrite (on_connection_update_nullish DR enc v env update w Hn).
    unfold reports_open, has_challenge. rewrite !(prop_of_nullish _ _ Hn).
    reflexivity.
  - rewrite (on_connection_update_blocks DR enc v env update w Hn).
    destruct (disconnect_block_frame DR v env (prop update "lastDisconnect")
                (snd (connection_block v env (prop update "connection")
                        (snd (qr_block enc v env (prop update "qr") w)))))
      as (_ & I & _).
    rewrite I. clear I. unfold reports_open, has_challenge.
    set (w1 := snd (qr_block enc v env (prop update "qr") w)).
    assert (I1 : latestQRCodeDataUrl w1 =
                 if truthy (prop update "qr") then
                   match enc (prop update "qr") with
                   | Ok url => Some url
                   | Failed _ => latestQRCodeDataUrl w
                   end
                 else latestQRCodeDataUrl w).
    { unfold w1. destruct (truthy (prop update "qr")) eqn:Hq.
      - destruct (enc (prop update "qr")) as [url|e] eqn:He.
        + now rewrite (qr_block_resolved enc v env _ w url Hq He).
        + now rewrite (qr_block_rejected enc v env _ w e Hq He).
      - now rewrite (qr_block_falsy enc v env _ w Hq). }
    destruct (strict_eq (prop update "connection") (JStr "open")) eqn:Ho.
    + destruct (connection_block_open v env _ w1 Ho) as (l & E & _).
      now rewrite E.
    + rewrite <- I1.
      destruct (truthy (prop update "connection")) eqn:Hc.
      * now rewrite (connection_block_other v env _ w1 Hc Ho).
      * now rewrite (connection_block_falsy v env _ w1 Hc).
Qed.

(** The listener itself always completes. *)
Lemma on_connection_update_completes v env update w :
  fst (on_connection_update DR enc v env update w) = Normal tt.
Proof.
  destruct (nullish update) eqn:Hn.
  - now rewrite (on_connection_update_nullish DR enc v env update w Hn).
  - rewrite (on_connection_update_blocks DR enc v env update w Hn).
    apply disconnect_block_frame.
Qed.

(** A step that carries no pairing challenge keeps an empty image empty. *)
Lemma step_without_challenge v s w :
  carries_challenge s = false ->
  latestQRCodeDataUrl w = None ->
  latestQRCodeDataUrl (step DR enc v s w) = None.
Proof.
  intros Hc Hw. destruct s as [senv | env update | save | m]; simpl in *.
  - now rewrite start_keeps_image.
  - rewrite image_after_update, Hc, Hw. now destruct (reports_open update).
  - now rewrite creds_update_keeps_image.
  - now rewrite messages_upsert_keeps_image.
Qed.

Lemma run_without_challenge v steps w :
  forallb (fun s => negb (carries_challenge s)) steps = true ->
  latestQRCodeDataUrl w = None ->
  latestQRCodeDataUrl (run DR enc v steps w) = None.
Proof.
  revert w. induction steps as [|s rest IH]; intros w H Hw; simpl in *.
  - exact Hw.
  - apply andb_prop in H. destruct H as [Hs Hr].
    apply negb_true_iff in Hs.
    apply IH; [exact Hr | now apply step_without_challenge].
Qed.

End Snapshot.

(** C9.  When the encoding of a pairing challenge fails, the pairing block
    catches the failure, logs it at error level and changes nothing else; on
    an update that carries no connection state the whole listener then
    completes with the image, its timestamp and the status as they were
    (the status is not set to ['qr-generated']). *)
Theorem failed_encoding_changes_nothing :
  forall (DR : DisconnectReasonT) (enc : JsVal -> Result string)
         (v : Variant) (env : Env) (update : JsVal) (w : World) (e : JsVal),
    has_challenge update = true ->
    enc (prop update "qr") = Failed e ->
    qr_block enc v env (prop update "qr") w =
      (Normal tt, add_effect (ELog Error (msg_qr_error v) [e]) w)
    /\ (truthy (prop update "connection") = false ->
        let r := on_connection_update DR enc v env update w in
        fst r = Normal tt
        /\ latestQRCodeDataUrl (snd r) = latestQRCodeDataUrl w
        /\ qrLastUpdated (snd r) = qrLastUpdated w
        /\ connectionStatus (snd r) = connectionStatus w
        /\ exists l, trace (snd r) =
                     trace w ++ ELog Error (msg_qr_error v) [e] :: l).
Proof.
  intros DR enc v env update w e Hc He. split.
  - now apply qr_block_rejected.
  - intros Hconn r. subst r. split; [apply on_connection_update_completes|].
    rewrite (on_connection_update_blocks DR enc v env update w
               (has_challenge_not_nullish _ Hc)).
    rewrite (qr_block_rejected enc v env _ w e Hc He). simpl.
    rewrite (connection_block_falsy v env _ _ Hconn). simpl.
    set (w1 := add_effect (ELog Error (msg_qr_error v) [e]) w).
    destruct (disconnect_block_frame DR v env (prop update "lastDisconnect") w1)
      as (_ & I & S & C).
    rewrite I, S, C. repeat split.
    destruct (truthy (prop update "lastDisconnect")
              && truthy (prop (prop update "lastDisconnect") "error")) eqn:Hg.
    + destruct (is_bad_or_logged_out DR (reason_code (prop update "lastDisconnect"))) eqn:Hb.
      * destruct (disconnect_block_reinitializing DR v env _ w1 Hg Hb) as (l & E & _).
        rewrite E. exists l. unfold after, w1. simpl. now rewrite <- app_assoc.
      * destruct (is_restart_or_closed DR (reason_code (prop update "lastDisconnect"))) eqn:Hr.
        -- rewrite (disconnect_block_restarting DR v env _ w1 Hg Hb Hr).
           eexists. unfold after, w1. simpl. now rewrite <- app_assoc.
        -- rewrite (disconnect_block_retry_waiting DR v env _ w1 Hg Hb Hr).
           eexists. unfold after, w1. simpl. now rewrite <- app_assoc.
    + rewrite (disconnect_block_no_disconnect DR v env _ w1 Hg).
      exists []. reflexivity.
Qed.

(** C10.  On an update that reports ['open'] the listener empties the
    pairing image and writes a fresh timestamp, so that [/health] publishes a
    timestamp while [/] has no image to show. *)
Theorem open_clears_image_but_stamps :
  forall (DR : DisconnectReasonT) (enc : JsVal -> Result string)
         (v : Variant) (env : Env) (update : JsVal) (w : World),
    reports_open update = true ->
    let r := on_connection_update DR enc v env update w in
    fst r = Normal tt
    /\ latestQRCodeDataUrl (snd r) = None
    /\ qrLastUpdated (snd r) = Some (date_open env)
    /\ connectionStatus (snd r) = JStr "open"
    /\ health (snd r) = mkHealth (JStr "open") (Some (date_open env))
    /\ root_page (snd r) = WaitingPage (JStr "open").
Proof.
  intros DR enc v env update w Ho r. subst r.
  split; [apply on_connection_update_completes|].
  rewrite (on_connection_update_blocks DR enc v env update w
             (reports_open_not_nullish _ Ho)).
  set (w1 := snd (qr_block enc v env (prop update "qr") w)).
  destruct (connection_block_open v env _ w1 Ho) as (l & E & _).
  destruct (disconnect_block_frame DR v env (prop update "lastDisconnect")
              (snd (connection_block v env (prop update "connection") w1)))
    as (_ & I & S & C).
  unfold health, root_page. rewrite I, S, C, E. simpl. repeat split.
Qed.

(** ** Computations that do not stay suspended *)

Lemma settles_ret {A} (a : A) : settles (ret a).
Proof. intros w. discriminate. Qed.

Lemma settles_throw {A} (e : JsVal) : settles (@throw A e).
Proof. intros w. discriminate. Qed.

Lemma settles_lift {A} (r : Result A) : settles (lift r).
Proof. destruct r; intros w; discriminate. Qed.

Lemma settles_await {A} (r : Result A) : settles (await (Settled r)).
Proof. apply settles_lift. Qed.

Lemma settles_gets {A} (g : World -> A) : settles (gets g).
Proof. intros w. discriminate. Qed.

Lemma settles_modify (g : World -> World) : settles (modify g).
Proof. intros w. discriminate. Qed.

Lemma settles_emit (e : Effect) : settles (emit e).
Proof. apply settles_modify. Qed.

Lemma settles_logger lvl msg args : settles (logger lvl msg args).
Proof. apply settles_emit. Qed.

Lemma settles_setTimeout d : settles (setTimeout_start d).
Proof. apply settles_emit. Qed.

Lemma settles_bind {A B} (m : M A) (k : A -> M B) :
  settles m -> (forall a, settles (k a)) -> settles (bind m k).
Proof.
  intros Hm Hk w. unfold bind. specialize (Hm w).
  destruct (m w) as [[a| e |] w1]; simpl in *;
    [apply Hk | discriminate | now destruct Hm].
Qed.

Lemma settles_try_catch {A} (m : M A) (h : JsVal -> M A) :
  settles m -> (forall e, settles (h e)) -> settles (try_catch m h).
Proof.
  intros Hm Hh w. unfold try_catch. specialize (Hm w).
  destruct (m w) as [[a| e |] w1]; simpl in *;
    [discriminate | apply Hh | now destruct Hm].
Qed.

Lemma settles_when (b : bool) (m : M unit) : settles m -> settles (when b m).
Proof. destruct b; simpl; [trivial | intros _; apply settles_ret]. Qed.

Lemma settles_member x name : settles (member x name).
Proof.
  unfold member. destruct (nullish x); [apply settles_throw | apply settles_ret].
Qed.

Lemma settles_js_and a (b : M JsVal) : settles b -> settles (js_and a b).
Proof.
  unfold js_and. destruct (truthy a); [trivial | intros _; apply settles_ret].
Qed.

Lemma settles_for_each (body : JsVal -> M unit) (elems : list JsVal) :
  (forall x, settles (body x)) -> settles (for_each body elems).
Proof.
  intros H. induction elems as [|x rest IH]; simpl.
  - apply settles_ret.
  - apply settles_bind; [apply H | intros _; exact IH].
Qed.

(** A [try]/[catch] whose body settles and whose handler completes always
    completes: nothing is thrown past it. *)
Lemma try_catch_total {A} (m : M A) (h : JsVal -> M A) :
  settles m -> (forall e, total (h e)) -> total (try_catch m h).
Proof.
  intros Hm Hh w. unfold try_catch. specialize (Hm w).
  destruct (m w) as [[a| e |] w1]; simpl in *.
  - now exists a.
  - apply Hh.
  - now destruct Hm.
Qed.

(** Whatever its body does, a [try]/[catch] whose handler only logs and
    schedules throws nothing. *)
Lemma try_catch_never_throws {A} (m : M A) (h : JsVal -> M A) (w : World) :
  (forall e, total (h e)) -> forall e, fst (try_catch m h w) <> Throws e.
Proof.
  intros Hh e. unfold try_catch.
  destruct (m w) as [[a| e' |] w1]; simpl; try discriminate.
  destruct (Hh e' w1) as (a & E). rewrite E. discriminate.
Qed.

Ltac settles_tac :=
  repeat match goal with
    | |- settles (match ?x with _ => _ end) => destruct x
    | |- settles (if ?x then _ else _) => destruct x
    | |- settles _ =>
        first
          [ apply settles_bind | apply settles_try_catch | apply settles_when
          | apply settles_js_and | apply settles_for_each
          | apply settles_ret | apply settles_throw
          | apply settles_lift | apply settles_await | apply settles_gets
          | apply settles_emit | apply settles_logger | apply settles_setTimeout
          | apply settles_member | apply settles_modify ]
    | |- forall _, _ => intro
    end.

Lemma messages_upsert_body_settles v m : settles (messages_upsert_body v m).
Proof. unfold messages_upsert_body, message_turn. settles_tac. Qed.

Lemma on_messages_upsert_total v m : total (on_messages_upsert v m).
Proof.
  unfold on_messages_upsert. apply try_catch_total.
  - apply messages_upsert_body_settles.
  - intros e w. now exists tt.
Qed.

(** Once the version lookup has settled, the body of [start] settles. *)
Lemma start_body_settles v senv r :
  fetch_version senv = Settled r -> settles (start_body v senv).
Proof.
  intros H.
  unfold start_body, resolve_version, useMultiFileAuthState, store_bind.
  rewrite H. settles_tac.
Qed.

Lemma start_total v senv r :
  fetch_version senv = Settled r -> total (start v senv).
Proof.
  intros H. unfold start. apply try_catch_total.
  - exact (start_body_settles v senv r H).
  - intros e w. now exists JUndefined.
Qed.

Lemma start_never_throws v senv w e : fst (start v senv w) <> Throws e.
Proof.
  unfold start. apply try_catch_never_throws.
  intros e' w'. now exists JUndefined.
Qed.

(** ** Version resolution and [start] *)

Lemma resolve_version_rejected v senv w e :
  fetch_version senv = Settled (Failed e) ->
  resolve_version v senv w =
  (Normal fallback_version, add_effect (ELog Warn (msg_version_fallback v) []) w).
Proof. intros H. unfold resolve_version. rewrite H. reflexivity. Qed.

Lemma resolve_version_resolved v senv w fetched :
  fetch_version senv = Settled (Ok fetched) ->
  resolve_version v senv w =
  (Normal (chosen_version fetched),
   add_effect (ELog Info (msg_version v)
                    [JObj [("version", chosen_version fetched)]]) w).
Proof.
  intros H. unfold resolve_version, chosen_version. rewrite H. run_monad.
  destruct (truthy fetched) eqn:Ht; simpl.
  - rewrite (truthy_not_nullish _ Ht). simpl.
    destruct (isArray (prop fetched "version")); simpl;
      rewrite ?(truthy_not_nullish _ Ht); reflexivity.
  - rewrite Ht. reflexivity.
Qed.

Lemma resolve_version_pending v senv w :
  fetch_version senv = NeverSettles ->
  resolve_version v senv w = (Suspended, w).
Proof. intros H. unfold resolve_version. rewrite H. reflexivity. Qed.

Lemma resolve_version_settled v senv w r :
  fetch_version senv = Settled r ->
  exists l,
    resolve_version v senv w =
    (Normal (resolved_version r),
     after w (latestQRCodeDataUrl w) (qrLastUpdated w) (connectionStatus w)
           (auth_present w) l)
    /\ only_logs l = true.
Proof.
  intros H. destruct r as [fetched|e]; simpl.
  - rewrite (resolve_version_resolved v senv w fetched H). eexists.
    split; [reflexivity | reflexivity].
  - rewrite (resolve_version_rejected v senv w e H). eexists.
    split; [reflexivity | reflexivity].
Qed.

(** After the call to [makeWASocket], nothing in [start] calls it again. *)
Ltac trace_reader_side :=
  unfold add_effect; simpl;
  rewrite ?sockets_app, ?scheduled_app; simpl; now rewrite ?app_nil_r.

(** Once the lookup has settled and the credentials are loaded, [start]
    gives the resolved version to [makeWASocket], once. *)
Lemma start_sockets v senv w r :
  fetch_version senv = Settled r ->
  (v = SingleFile \/ load_auth senv = Ok tt) ->
  sockets (trace (snd (start v senv w))) =
  sockets (trace w) ++ [resolved_version r].
Proof.
  intros H Hl. unfold start, start_body.
  erewrite try_catch_bind_normal by reflexivity.
  destruct (resolve_version_settled v senv
              (set_connectionStatus (JStr "fetching-baileys-version") w) r H)
    as (l & E & O).
  destruct (only_logs_quiet l O) as (_ & _ & _ & K).
  erewrite try_catch_bind_normal by exact E.
  assert (L : exists l', forall w0,
             match v with
             | MultiFile => useMultiFileAuthState senv
             | SingleFile => ret tt
             end w0 =
             (Normal tt,
              after w0 (latestQRCodeDataUrl w0) (qrLastUpdated w0)
                    (connectionStatus w0)
                    (match v with MultiFile => true | SingleFile => auth_present w0 end)
                    l')
             /\ sockets l' = []).
  { destruct Hl as [-> | Hl].
    - exists []. intros w0. split; [|reflexivity].
      unfold after, ret. rewrite app_nil_r. now destruct w0.
    - destruct v.
      + exists [ELoadAuth]. intros w0. split; [|reflexivity].
        unfold useMultiFileAuthState. rewrite Hl. reflexivity.
      + exists []. intros w0. split; [|reflexivity].
        unfold after, ret. rewrite app_nil_r. now destruct w0. }
  destruct L as (l' & L).
  erewrite try_catch_bind_normal by (apply L).
  destruct (L (after (set_connectionStatus (JStr "fetching-baileys-version") w)
                 (latestQRCodeDataUrl w) (qrLastUpdated w)
                 (JStr "fetching-baileys-version") (auth_present w) l))
    as (_ & K').
  erewrite try_catch_bind_normal by reflexivity.
  erewrite try_catch_bind_normal by reflexivity.
  match goal with
  | |- context [try_catch ?R ?h ?w5] =>
      assert (P : keeps (fun w0 => sockets (trace w0)) (try_catch R h))
        by (unfold store_bind; keeps_tac; trace_reader_side);
      pose proof (P w5) as P'; cbv beta in P'; rewrite P'
  end.
  unfold after, add_effect. simpl.
  rewrite !sockets_app, K, K'. simpl. now rewrite !app_nil_r.
Qed.

(** While the lookup stays pending, [start] stays at its first [await]. *)
Lemma start_pending v senv w :
  fetch_version senv = NeverSettles ->
  start v senv w =
  (Suspended, set_connectionStatus (JStr "fetching-baileys-version") w).
Proof.
  intros H. unfold start, start_body. cbv [bind modify try_catch].
  now rewrite (resolve_version_pending v senv _ H).
Qed.

(** What the outer [catch] of [start] does with a failure of the body. *)
Lemma start_catches v senv w e w1 :
  start_body v senv w = (Throws e, w1) ->
  start v senv w =
  (Normal JUndefined,
   after w1 (latestQRCodeDataUrl w1) (qrLastUpdated w1) (connectionStatus w1)
         (auth_present w1)
         [ELog Error (msg_start_error v) [e]; ESetTimeout 5000]).
Proof.
  intros H. unfold start. rewrite (try_catch_throws _ _ _ _ _ H). same_world.
Qed.

(** An unclassified disconnect, for comparison with a failure of [start]. *)
Lemma unclassified_disconnect_schedule DR enc v env update w :
  is_disconnect update = true ->
  is_bad_or_logged_out DR (code_of update) = false ->
  is_restart_or_closed DR (code_of update) = false ->
  scheduled (trace (snd (on_connection_update DR enc v env update w))) =
  scheduled (trace w) ++ [5000].
Proof.
  intros Hd Hb Hr.
  rewrite (on_connection_update_blocks DR enc v env update w
             (is_disconnect_not_nullish _ Hd)).
  destruct (before_disconnect enc v env update w) as (l0 & T & O & A).
  destruct (only_logs_quiet l0 O) as (S0 & _ & _ & _).
  rewrite (disconnect_block_retry_waiting DR v env _ _ Hd Hb Hr).
  unfold after. simpl. rewrite T.
  rewrite !scheduled_app, S0. simpl. now rewrite !app_nil_r.
Qed.

(** C5 (as amended).  [start] awaits the remote lookup without a timeout of
    its own.  When the lookup rejects, the fallback version [2, 2204, 13] is
    kept, a warning is logged, [start] completes and the socket is built
    with the fallback; when it resolves, the version is the fetched version
    array if there is one and the fallback otherwise, and startup goes on
    likewise; as long as the lookup does not settle, [start] stays suspended
    at this step. *)
Theorem version_resolution_falls_back_when_lookup_settles :
  forall (v : Variant) (senv : StartEnv) (w : World) (e fetched : JsVal),
    (fetch_version senv = Settled (Failed e) ->
       resolve_version v senv w =
         (Normal fallback_version,
          add_effect (ELog Warn (msg_version_fallback v) []) w)
       /\ (exists sock, fst (start v senv w) = Normal sock)
       /\ (v = SingleFile \/ load_auth senv = Ok tt ->
           sockets (trace (snd (start v senv w))) =
           sockets (trace w) ++ [fallback_version]))
    /\ (fetch_version senv = Settled (Ok fetched) ->
       fst (resolve_version v senv w) =
         Normal (if truthy fetched && isArray (prop fetched "version")
                 then prop fetched "version" else fallback_version)
       /\ (exists sock, fst (start v senv w) = Normal sock)
       /\ (v = SingleFile \/ load_auth senv = Ok tt ->
           sockets (trace (snd (start v senv w))) =
           sockets (trace w) ++
           [if truthy fetched && isArray (prop fetched "version")
            then prop fetched "version" else fallback_version]))
    /\ (fetch_version senv = NeverSettles ->
        start v senv w =
        (Suspended, set_connectionStatus (JStr "fetching-baileys-version") w)).
Proof.
  intros v senv w e fetched. split; [|split].
  - intros H. split; [|split].
    + now apply resolve_version_rejected with (e := e).
    + exact (start_total v senv _ H w).
    + intros Hl. exact (start_sockets v senv w _ H Hl).
  - intros H. split; [|split].
    + now rewrite (resolve_version_resolved v senv w fetched H).
    + exact (start_total v senv _ H w).
    + intros Hl. exact (start_sockets v senv w _ H Hl).
  - apply start_pending.
Qed.

(** C6.  When the body of [start] throws (the credentials cannot be loaded,
    the socket cannot be built, the store cannot be bound), the outer
    [catch] logs the failure at error level and schedules one retry of
    [start], 5000 ms later, and [start] itself completes; the delay is the
    one scheduled for an unclassified disconnect. *)
Theorem start_failure_is_logged_and_retried :
  forall (v : Variant) (senv : StartEnv) (w w1 : World) (e : JsVal)
         (DR : DisconnectReasonT) (enc : JsVal -> Result string)
         (env : Env) (update : JsVal) (w2 : World),
    start_body v senv w = (Throws e, w1) ->
    start v senv w =
      (Normal JUndefined,
       after w1 (latestQRCodeDataUrl w1) (qrLastUpdated w1) (connectionStatus w1)
             (auth_present w1)
             [ELog Error (msg_start_error v) [e]; ESetTimeout 5000])
    /\ scheduled (trace (snd (start v senv w))) = scheduled (trace w) ++ [5000]
    /\ (is_disconnect update = true ->
        is_bad_or_logged_out DR (code_of update) = false ->
        is_restart_or_closed DR (code_of update) = false ->
        scheduled (trace (snd (on_connection_update DR enc v env update w2))) =
        scheduled (trace w2) ++ [5000]).
Proof.
  intros v senv w w1 e DR enc env update w2 H.
  pose proof (start_catches v senv w e w1 H) as E.
  split; [exact E|]. split.
  - rewrite E. unfold after. simpl. rewrite scheduled_app. simpl.
    pose proof (start_body_keeps_scheduled v senv w) as K. simpl in K.
    rewrite H in K. simpl in K. now rewrite K.
  - apply unclassified_disconnect_schedule.
Qed.

(** ** The saver and the module level *)

(** In the second file a failure to load the credentials happens at module
    level, outside every [try]: the process ends there, before the HTTP
    server is started and before [startSock] is called. *)
Lemma single_file_load_failure_exits (senv : StartEnv) (e : JsVal) (store : bool) :
  load_auth senv = Failed e ->
  load_at_module_level senv store =
  Exited e (add_effect ELoadAuth (initial_world store)).
Proof.
  intros H. unfold load_at_module_level, useSingleFileAuthState. run_monad.
  now rewrite H.
Qed.

(** A failure of the saver leaves the ['creds.update'] listener as it came:
    nothing in the program catches or logs it. *)
Lemma creds_update_failure_escapes (e : JsVal) (w : World) :
  on_creds_update (Failed e) w = (Throws e, add_effect ESaveAuth w).
Proof. reflexivity. Qed.

(** ** The scenarios of the specification *)

Example scenario_pair_then_open :
  let DR := baileys_DisconnectReason in
  let w1 := step DR sample_toDataURL MultiFile
              (SConnectionUpdate sample_env (qr_update "XYZ")) (initial_world false) in
  let w2 := step DR sample_toDataURL MultiFile
              (SConnectionUpdate sample_env open_update) w1 in
  latestQRCodeDataUrl w1 = Some "data:image/png;base64,XYZ"
  /\ connectionStatus w1 = JStr "qr-generated"
  /\ latestQRCodeDataUrl w2 = None
  /\ connectionStatus w2 = JStr "open".
Proof. repeat split. Qed.

Example scenario_logged_out :
  let DR := baileys_DisconnectReason in
  let w1 := step DR sample_toDataURL MultiFile
              (SConnectionUpdate sample_env (close_update (JNum 401)))
              (initial_world true) in
  let w2 := step DR sample_toDataURL MultiFile
              (SStart (mkStartEnv (Settled (Failed JNull)) (Ok tt) (Ok tt) None)) w1 in
  auth_present w1 = false
  /\ scheduled (trace w1) = [2000]
  /\ connectionStatus w2 = JStr "starting-socket"
  /\ auth_present w2 = true.
Proof. repeat split. Qed.

Example scenario_econnreset :
  let r := on_connection_update baileys_DisconnectReason sample_toDataURL SingleFile
             sample_env (close_update (JStr "ECONNRESET")) (initial_world true) in
  auth_present (snd r) = true
  /\ store_calls (trace (snd r)) = []
  /\ scheduled (trace (snd r)) = [5000].
Proof. repeat split. Qed.

(** ** Counterexamples to the claims as first stated *)

(** C1 as stated fails.  In the multi-file program a [loggedOut] disconnect
    that finds the store already absent makes no removal call; and in either
    program a removal that the system refuses leaves the store in place. *)
Lemma deleted_exactly_once_counterexample :
  let DR := baileys_DisconnectReason in
  let absent := initial_world false in
  let present := initial_world true in
  let r1 := on_connection_update DR sample_toDataURL MultiFile sample_env
              (close_update (JNum 401)) absent in
  let r2 := on_connection_update DR sample_toDataURL SingleFile denied_env
              (close_update (JNum 500)) present in
  (is_disconnect (close_update (JNum 401)) = true
   /\ is_bad_or_logged_out DR (code_of (close_update (JNum 401))) = true
   /\ deletions (trace (snd r1)) = 0%nat
   /\ ~ deleted_exactly_once absent (snd r1))
  /\ (is_disconnect (close_update (JNum 500)) = true
      /\ is_bad_or_logged_out DR (code_of (close_update (JNum 500))) = true
      /\ auth_present (snd r2) = true
      /\ ~ deleted_exactly_once present (snd r2)).
Proof.
  repeat split.
  - intros [H _]. discriminate H.
  - intros [_ H]. discriminate H.
Qed.

(** C3 as stated fails.  An update that reports the connection closed
    without a [lastDisconnect.error] (the reason is absent, or null) has a
    reason code outside the four named ones, and the listener schedules no
    restart for it at all. *)
Lemma absent_error_counterexample :
  let DR := baileys_DisconnectReason in
  let absent := JObj [("connection", JStr "close");
                      ("lastDisconnect", JObj [("date", JStr "2024-01-01T00:00:00.000Z")])] in
  let null := JObj [("connection", JStr "close");
                    ("lastDisconnect", JObj [("error", JNull)])] in
  let r1 := on_connection_update DR sample_toDataURL MultiFile sample_env absent
              (initial_world true) in
  let r2 := on_connection_update DR sample_toDataURL SingleFile sample_env null
              (initial_world true) in
  (reports_close absent = true
   /\ is_bad_or_logged_out DR (code_of absent) = false
   /\ is_restart_or_closed DR (code_of absent) = false
   /\ scheduled (trace (snd r1)) = []
   /\ ~ restart_scheduled_at 5000 (initial_world true) (snd r1))
  /\ (reports_close null = true
      /\ is_bad_or_logged_out DR (code_of null) = false
      /\ is_restart_or_closed DR (code_of null) = false
      /\ scheduled (trace (snd r2)) = []
      /\ ~ restart_scheduled_at 5000 (initial_world true) (snd r2)).
Proof.
  repeat split; intros H; discriminate H.
Qed.

(** C4 as stated fails.  After a first challenge has been encoded, a second
    challenge that no QR symbol can hold (8000 bytes) is rejected by the
    encoder, and the listener leaves the image and the timestamp of the
    first one in place: when its run completes, the snapshot is not that of
    the most recently issued challenge. *)
Lemma latest_challenge_counterexample :
  let DR := baileys_DisconnectReason in
  let first := qr_update "A" in
  let second := qr_update (replicate 8000 "b") in
  let later := mkEnv "2024-01-01T00:00:20.000Z" "2024-01-01T00:00:25.000Z" false in
  let w1 := snd (on_connection_update DR sample_toDataURL MultiFile sample_env
                   first (initial_world true)) in
  let w2 := snd (on_connection_update DR sample_toDataURL MultiFile later
                   second w1) in
  has_challenge second = true
  /\ latestQRCodeDataUrl w2 = Some "data:image/png;base64,A"
  /\ qrLastUpdated w2 = Some "2024-01-01T00:00:00.000Z"
  /\ ~ holds_challenge sample_toDataURL second w2.
Proof.
  vm_compute. repeat split.
  intros (url & H & _). discriminate H.
Qed.

(** C5 as stated fails.  With a lookup that never settles, [start] builds no
    socket and schedules nothing: it stays at ['fetching-baileys-version']. *)
Lemma pending_lookup_counterexample :
  let senv := mkStartEnv NeverSettles (Ok tt) (Ok tt) None in
  let r1 := start MultiFile senv (initial_world true) in
  let r2 := start SingleFile senv (initial_world true) in
  (fst r1 = Suspended /\ sockets (trace (snd r1)) = []
   /\ scheduled (trace (snd r1)) = []
   /\ connectionStatus (snd r1) = JStr "fetching-baileys-version")
  /\ (fst r2 = Suspended /\ sockets (trace (snd r2)) = []
      /\ scheduled (trace (snd r2)) = []
      /\ connectionStatus (snd r2) = JStr "fetching-baileys-version").
Proof. repeat split. Qed.

(** C8 as stated fails.  A failure of credential persistence is not logged
    and no restart follows: it is thrown out of the listener as it came. *)
Lemma persistence_failure_counterexample :
  let r := on_creds_update (Failed EPERM) (initial_world true) in
  fst r = Throws EPERM
  /\ logged Error (trace (snd r)) = 0%nat
  /\ logged Warn (trace (snd r)) = 0%nat
  /\ scheduled (trace (snd r)) = [].
Proof. repeat split. Qed.

(** ** The theorems at concrete inputs *)

(** Each lemma below applies one of the theorems above to inputs written
    out in full, with its hypotheses checked by computation. *)

Lemma reinitializing_witness :
  let DR := baileys_DisconnectReason in
  let u := close_update (JNum 401) in
  let w := initial_world true in
  (is_disconnect u = true /\ is_bad_or_logged_out DR (code_of u) = true)
  /\ (let r := on_connection_update DR sample_toDataURL SingleFile sample_env u w in
      fst r = Normal tt
      /\ scheduled (trace (snd r)) = [2000]
      /\ deletions (trace (snd r)) = 1%nat
      /\ auth_present (snd r) = false).
Proof.
  split; [split; reflexivity|].
  exact (reinitializing_deletes_best_effort_and_restarts
           baileys_DisconnectReason sample_toDataURL SingleFile sample_env
           (close_update (JNum 401)) (initial_world true) eq_refl eq_refl).
Defined.

Lemma restarting_witness :
  let DR := baileys_DisconnectReason in
  let u := close_update (JNum 515) in
  let w := initial_world true in
  (buckets_disjoint DR = true /\ is_disconnect u = true
   /\ is_restart_or_closed DR (code_of u) = true)
  /\ (let r := on_connection_update DR sample_toDataURL MultiFile sample_env u w in
      fst r = Normal tt
      /\ scheduled (trace (snd r)) = [2000]
      /\ auth_present (snd r) = true
      /\ store_calls (trace (snd r)) = []).
Proof.
  split; [repeat split|].
  exact (restarting_keeps_credentials_and_restarts
           baileys_DisconnectReason sample_toDataURL MultiFile sample_env
           (close_update (JNum 515)) (initial_world true)
           eq_refl eq_refl eq_refl).
Defined.

Lemma retry_waiting_witness :
  let DR := baileys_DisconnectReason in
  let u := close_update JUndefined in
  let bare := JObj [("connection", JStr "close")] in
  let w := initial_world true in
  (is_disconnect u = true /\ is_bad_or_logged_out DR (code_of u) = false
   /\ is_restart_or_closed DR (code_of u) = false
   /\ is_disconnect bare = false)
  /\ (let r := on_connection_update DR sample_toDataURL MultiFile sample_env u w in
      fst r = Normal tt
      /\ scheduled (trace (snd r)) = [5000]
      /\ auth_present (snd r) = true
      /\ store_calls (trace (snd r)) = [])
  /\ (let r := on_connection_update DR sample_toDataURL MultiFile sample_env bare w in
      scheduled (trace (snd r)) = []
      /\ auth_present (snd r) = true
      /\ store_calls (trace (snd r)) = []).
Proof.
  split; [repeat split|]. split.
  - exact (proj1 (retry_waiting_keeps_credentials_and_waits
                    baileys_DisconnectReason sample_toDataURL MultiFile sample_env
                    (close_update JUndefined) (initial_world true))
             eq_refl eq_refl eq_refl).
  - exact (proj2 (retry_waiting_keeps_credentials_and_waits
                    baileys_DisconnectReason sample_toDataURL MultiFile sample_env
                    (JObj [("connection", JStr "close")]) (initial_world true))
             eq_refl).
Defined.

Lemma version_resolution_witness :
  let rejected := mkStartEnv (Settled (Failed (JStr "ETIMEDOUT"))) (Ok tt) (Ok tt) None in
  let fetched := JObj [("version", JArr [JNum 2; JNum 3000; JNum 1])] in
  let resolved := mkStartEnv (Settled (Ok fetched)) (Ok tt) (Ok tt) None in
  let pending := mkStartEnv NeverSettles (Ok tt) (Ok tt) None in
  let w := initial_world true in
  (fetch_version rejected = Settled (Failed (JStr "ETIMEDOUT"))
   /\ fst (resolve_version MultiFile rejected w) = Normal fallback_version
   /\ sockets (trace (snd (start MultiFile rejected w))) = [fallback_version])
  /\ (fetch_version resolved = Settled (Ok fetched)
      /\ sockets (trace (snd (start SingleFile resolved w))) =
         [JArr [JNum 2; JNum 3000; JNum 1]])
  /\ (fetch_version pending = NeverSettles
      /\ fst (start MultiFile pending w) = Suspended).
Proof.
  split; [|split].
  - split; [reflexivity|].
    destruct (proj1 (version_resolution_falls_back_when_lookup_settles
                       MultiFile
                       (mkStartEnv (Settled (Failed (JStr "ETIMEDOUT"))) (Ok tt) (Ok tt) None)
                       (initial_world true) (JStr "ETIMEDOUT") JNull) eq_refl)
      as (R & _ & S).
    split; [exact (f_equal fst R) | exact (S (or_intror eq_refl))].
  - split; [reflexivity|].
    destruct (proj1 (proj2 (version_resolution_falls_back_when_lookup_settles
                       SingleFile
                       (mkStartEnv (Settled (Ok (JObj [("version", JArr [JNum 2; JNum 3000; JNum 1])])))
                                   (Ok tt) (Ok tt) None)
                       (initial_world true) JNull
                       (JObj [("version", JArr [JNum 2; JNum 3000; JNum 1])]))) eq_refl)
      as (_ & _ & S).
    exact (S (or_introl eq_refl)).
  - split; [reflexivity|].
    exact (f_equal fst
             (proj2 (proj2 (version_resolution_falls_back_when_lookup_settles
                       MultiFile (mkStartEnv NeverSettles (Ok tt) (Ok tt) None)
                       (initial_world true) JNull JNull)) eq_refl)).
Defined.

Lemma start_failure_witness :
  let DR := baileys_DisconnectReason in
  let senv := mkStartEnv (Settled (Failed JNull)) (Ok tt) (Failed TypeError) None in
  let w := initial_world true in
  let u := close_update (JStr "ECONNRESET") in
  (fst (start_body MultiFile senv w) = Throws TypeError
   /\ is_disconnect u = true
   /\ is_bad_or_logged_out DR (code_of u) = false
   /\ is_restart_or_closed DR (code_of u) = false)
  /\ (fst (start MultiFile senv w) = Normal JUndefined
      /\ scheduled (trace (snd (start MultiFile senv w))) = [5000]
      /\ logged Error (trace (snd (start MultiFile senv w))) = 1%nat
      /\ scheduled (trace (snd (on_connection_update DR sample_toDataURL MultiFile
                                  sample_env u w))) = [5000]).
Proof.
  split; [repeat split|].
  destruct (start_failure_is_logged_and_retried
              MultiFile
              (mkStartEnv (Settled (Failed JNull)) (Ok tt) (Failed TypeError) None)
              (initial_world true)
              (snd (start_body MultiFile
                      (mkStartEnv (Settled (Failed JNull)) (Ok tt) (Failed TypeError) None)
                      (initial_world true)))
              TypeError baileys_DisconnectReason sample_toDataURL sample_env
              (close_update (JStr "ECONNRESET")) (initial_world true) eq_refl)
    as (E & S & D).
  split; [exact (f_equal fst E)|]. split; [exact S|].
  split; [rewrite E; reflexivity|].
  exact (D eq_refl eq_refl eq_refl).
Defined.

Lemma deletion_failure_witness :
  let DR := baileys_DisconnectReason in
  let u := close_update (JNum 500) in
  let w := initial_world false in
  (is_disconnect u = true /\ is_bad_or_logged_out DR (code_of u) = true
   /\ auth_present w = false /\ delete_fails SingleFile sample_env w = true)
  /\ (fst (delete_auth SingleFile sample_env w) = Normal tt
      /\ auth_present (snd (delete_auth SingleFile sample_env w)) = false
      /\ (let r := on_connection_update DR sample_toDataURL SingleFile sample_env u w in
          fst r = Normal tt
          /\ scheduled (trace (snd r)) = [2000]
          /\ exists e l, trace (snd r) = trace w ++ l
                         /\ In (ELog Error (msg_delete_error SingleFile) [e]) l)).
Proof.
  split; [repeat split|].
  destruct (deletion_failure_is_logged_and_restart_proceeds
              baileys_DisconnectReason sample_toDataURL SingleFile sample_env
              (close_update (JNum 500)) (initial_world false) eq_refl eq_refl)
    as ((N & A) & (N' & S & L)).
  split; [exact N|]. split; [exact (A eq_refl)|].
  split; [exact N'|]. split; [exact S|]. exact (L eq_refl).
Defined.

Lemma failed_encoding_witness :
  let DR := baileys_DisconnectReason in
  let u := JObj [("qr", JNum 7)] in
  let w1 := snd (on_connection_update DR sample_toDataURL SingleFile sample_env
                   (qr_update "A") (initial_world true)) in
  (has_challenge u = true
   /\ sample_toDataURL (prop u "qr") = Failed (JStr "Invalid data")
   /\ truthy (prop u "connection") = false)
  /\ (let r := on_connection_update DR sample_toDataURL SingleFile sample_env u w1 in
      fst r = Normal tt
      /\ latestQRCodeDataUrl (snd r) = Some "data:image/png;base64,A"
      /\ qrLastUpdated (snd r) = Some "2024-01-01T00:00:00.000Z"
      /\ connectionStatus (snd r) = JStr "qr-generated").
Proof.
  split; [repeat split|].
  destruct (failed_encoding_changes_nothing
              baileys_DisconnectReason sample_toDataURL SingleFile sample_env
              (JObj [("qr", JNum 7)])
              (snd (on_connection_update baileys_DisconnectReason sample_toDataURL
                      SingleFile sample_env (qr_update "A") (initial_world true)))
              (JStr "Invalid data") eq_refl eq_refl)
    as (_ & H).
  destruct (H eq_refl) as (N & I & S & C & _).
  split; [exact N|]. split; [exact I|]. split; [exact S | exact C].
Defined.

Lemma open_witness :
  let DR := baileys_DisconnectReason in
  let w1 := snd (on_connection_update DR sample_toDataURL MultiFile sample_env
                   (qr_update "XYZ") (initial_world true)) in
  reports_open open_update = true
  /\ (let r := on_connection_update DR sample_toDataURL MultiFile sample_env
                 open_update w1 in
      latestQRCodeDataUrl w1 = Some "data:image/png;base64,XYZ"
      /\ latestQRCodeDataUrl (snd r) = None
      /\ qrLastUpdated (snd r) = Some "2024-01-01T00:00:05.000Z"
      /\ health (snd r) = mkHealth (JStr "open") (Some "2024-01-01T00:00:05.000Z")
      /\ root_page (snd r) = WaitingPage (JStr "open")).
Proof.
  split; [reflexivity|].
  destruct (open_clears_image_but_stamps
              baileys_DisconnectReason sample_toDataURL MultiFile sample_env
              open_update
              (snd (on_connection_update baileys_DisconnectReason sample_toDataURL
                      MultiFile sample_env (qr_update "XYZ") (initial_world true)))
              eq_refl)
    as (_ & I & S & _ & H & P).
  split; [reflexivity|]. split; [exact I|]. split; [exact S|].
  split; [exact H | exact P].
Defined.

(** * Further properties *)

(** ** Trace readers, continued *)

Lemma listeners_app (a b : list Effect) :
  listeners (a ++ b) = listeners a ++ listeners b.
Proof. unfold listeners. apply flat_map_app. Qed.

(** ** The ambient variables after one update *)

Section AfterUpdate.

Variable DR : DisconnectReasonT.
Variable enc : JsVal -> Result string.

Lemma stamp_after_update_aux v env update w :
  qrLastUpdated (snd (on_connection_update DR enc v env update w)) =
  if reports_open update then Some (date_open env)
  else if has_challenge update then
         match enc (prop update "qr") with
         | Ok _ => Some (date_qr env)
         | Failed _ => qrLastUpdated w
         end
       else qrLastUpdated w.
Proof.
  destruct (nullish update) eqn:Hn.
  - rewrite (on_connection_update_nullish DR enc v env update w Hn).
    unfold reports_open, has_challenge. rewrite !(prop_of_nullish _ _ Hn).
    reflexivity.
  - rewrite (on_connection_update_blocks DR enc v env update w Hn).
    destruct (disconnect_block_frame DR v env (prop update "lastDisconnect")
                (snd (connection_block v env (prop update "connection")
                        (snd (qr_block enc v env (prop update "qr") w)))))
      as (_ & _ & S & _).
    rewrite S. clear S. unfold reports_open, has_challenge.
    set (w1 := snd (qr_block enc v env (prop update "qr") w)).
    assert (S1 : qrLastUpdated w1 =
                 if truthy (prop update "qr") then
                   match enc (prop update "qr") with
                   | Ok _ => Some (date_qr env)
                   | Failed _ => qrLastUpdated w
                   end
                 else qrLastUpdated w).
    { unfold w1. destruct (truthy (prop update "qr")) eqn:Hq.
      - destruct (enc (prop update "qr")) as [url|e] eqn:He.
        + now rewrite (qr_block_resolved enc v env _ w url Hq He).
        + now rewrite (qr_block_rejected enc v env _ w e Hq He).
      - now rewrite (qr_block_falsy enc v env _ w Hq). }
    destruct (strict_eq (prop update "connection") (JStr "open")) eqn:Ho.
    + destruct (connection_block_open v env _ w1 Ho) as (l & E & _).
      now rewrite E.
    + rewrite <- S1.
      destruct (truthy (prop update "connection")) eqn:Hc.
      * now rewrite (connection_block_other v env _ w1 Hc Ho).
      * now rewrite (connection_block_falsy v env _ w1 Hc).
Qed.

Lemma status_after_update_aux v env update w :
  connectionStatus (snd (on_connection_update DR enc v env update w)) =
  if truthy (prop update "connection") then prop update "connection"
  else if has_challenge update then
         match enc (prop update "qr") with
         | Ok _ => JStr "qr-generated"
         | Failed _ => connectionStatus w
         end
       else connectionStatus w.
Proof.
  destruct (nullish update) eqn:Hn.
  - rewrite (on_connection_update_nullish DR enc v env update w Hn).
    unfold has_challenge. rewrite !(prop_of_nullish _ _ Hn). reflexivity.
  - rewrite (on_connection_update_blocks DR enc v env update w Hn).
    destruct (disconnect_block_frame DR v env (prop update "lastDisconnect")
                (snd (connection_block v env (prop update "connection")
                        (snd (qr_block enc v env (prop update "qr") w)))))
      as (_ & _ & _ & C).
    rewrite C. clear C. unfold has_challenge.
    set (w1 := snd (qr_block enc v env (prop update "qr") w)).
    assert (C1 : connectionStatus w1 =
                 if truthy (prop update "qr") then
                   match enc (prop update "qr") with
                   | Ok _ => JStr "qr-generated"
                   | Failed _ => connectionStatus w
                   end
                 else connectionStatus w).
    { unfold w1. destruct (truthy (prop update "qr")) eqn:Hq.
      - destruct (enc (prop update "qr")) as [url|e] eqn:He.
        + now rewrite (qr_block_resolved enc v env _ w url Hq He).
        + now rewrite (qr_block_rejected enc v env _ w e Hq He).
      - now rewrite (qr_block_falsy enc v env _ w Hq). }
    destruct (truthy (prop update "connection")) eqn:Hc.
    + destruct (strict_eq (prop update "connection") (JStr "open")) eqn:Ho.
      * destruct (connection_block_open v env _ w1 Ho) as (l & E & _).
        rewrite E. simpl. symmetry. now apply strict_eq_str.
      * now rewrite (connection_block_other v env _ w1 Hc Ho).
    + rewrite <- C1. now rewrite (connection_block_falsy v env _ w1 Hc).
Qed.

(** The restarts scheduled by one run of the listener, for any update. *)
Lemma scheduled_after_update_aux v env update w :
  scheduled (trace (snd (on_connection_update DR enc v env update w))) =
  scheduled (trace w) ++ restart_of DR update.
Proof.
  unfold restart_of. destruct (is_disconnect update) eqn:Hd.
  - rewrite (on_connection_update_blocks DR enc v env update w
               (is_disconnect_not_nullish _ Hd)).
    destruct (before_disconnect enc v env update w) as (l0 & T & O & A).
    destruct (only_logs_quiet l0 O) as (S0 & _ & _ & _).
    unfold restart_delay, code_of.
    destruct (is_bad_or_logged_out DR (reason_code (prop update "lastDisconnect"))) eqn:Hb.
    + destruct (disconnect_block_reinitializing DR v env _
                  (snd (connection_block v env (prop update "connection")
                          (snd (qr_block enc v env (prop update "qr") w)))) Hd Hb)
        as (l & E & Hs & _).
      rewrite E. unfold after. simpl. rewrite T, !scheduled_app, S0, Hs.
      now rewrite app_nil_r.
    + destruct (is_restart_or_closed DR (reason_code (prop update "lastDisconnect"))) eqn:Hr.
      * rewrite (disconnect_block_restarting DR v env _ _ Hd Hb Hr).
        unfold after. simpl. rewrite T, !scheduled_app, S0. simpl.
        now rewrite app_nil_r.
      * rewrite (disconnect_block_retry_waiting DR v env _ _ Hd Hb Hr).
        unfold after. simpl. rewrite T, !scheduled_app, S0. simpl.
        now rewrite app_nil_r.
  - rewrite app_nil_r. now apply no_disconnect_no_restart.
Qed.

End AfterUpdate.

(** X1.  For every update, whatever it is, one run of the
    ['connection.update'] listener schedules exactly one restart when the
    update carries a disconnect and none otherwise; the delay is 2000 ms for
    the four named reasons and 5000 ms for every other one. *)
Theorem one_restart_per_disconnect :
  forall (DR : DisconnectReasonT) (enc : JsVal -> Result string)
         (v : Variant) (env : Env) (update : JsVal) (w : World),
    scheduled (trace (snd (on_connection_update DR enc v env update w))) =
    scheduled (trace w) ++
    (if is_disconnect update then
       [if is_bad_or_logged_out DR (code_of update)
           || is_restart_or_closed DR (code_of update)
        then 2000 else 5000]
     else []).
Proof.
  intros. rewrite scheduled_after_update_aux. unfold restart_of, restart_delay.
  destruct (is_disconnect update); [|reflexivity].
  destruct (is_bad_or_logged_out DR (code_of update)); [reflexivity|].
  now destruct (is_restart_or_closed DR (code_of update)).
Qed.

Lemma store_untouched_aux (DR : DisconnectReasonT) (enc : JsVal -> Result string)
      (v : Variant) (env : Env) (update : JsVal) (w : World) :
  is_disconnect update && is_bad_or_logged_out DR (code_of update) = false ->
  store_calls (trace (snd (on_connection_update DR enc v env update w))) =
    store_calls (trace w)
  /\ auth_present (snd (on_connection_update DR enc v env update w)) =
     auth_present w.
Proof.
  intros H.
  destruct (is_disconnect update) eqn:Hd; simpl in H.
  - rewrite (on_connection_update_blocks DR enc v env update w
               (is_disconnect_not_nullish _ Hd)).
    destruct (before_disconnect enc v env update w) as (l0 & T & O & A).
    destruct (only_logs_quiet l0 O) as (_ & C0 & _ & _).
    destruct (is_restart_or_closed DR (code_of update)) eqn:Hr.
    + rewrite (disconnect_block_restarting DR v env _ _ Hd H Hr).
      unfold after. simpl. rewrite T, A, !store_calls_app, C0. simpl.
      now rewrite !app_nil_r.
    + rewrite (disconnect_block_retry_waiting DR v env _ _ Hd H Hr).
      unfold after. simpl. rewrite T, A, !store_calls_app, C0. simpl.
      now rewrite !app_nil_r.
  - destruct (no_disconnect_no_restart DR enc v env update w Hd) as (_ & C & A).
    now split.
Qed.

(** X2.  The listener leaves the credential store alone (same presence on
    disk, no call that loads, writes or removes it) on every update that is
    not a disconnect with reason [badSession] or [loggedOut]; no assumption
    on the values of the enum is needed. *)
Theorem store_touched_only_when_reinitializing :
  forall (DR : DisconnectReasonT) (enc : JsVal -> Result string)
         (v : Variant) (env : Env) (update : JsVal) (w : World),
    is_disconnect update && is_bad_or_logged_out DR (code_of update) = false ->
    store_calls (trace (snd (on_connection_update DR enc v env update w))) =
      store_calls (trace w)
    /\ auth_present (snd (on_connection_update DR enc v env update w)) =
       auth_present w.
Proof. intros. now apply store_untouched_aux. Qed.

(** X3.  After one run of the listener, for any update: the status is the
    reported connection state when there is one (it overrides
    ['qr-generated'] of the same update), else ['qr-generated'] when a
    challenge was encoded, else what it was; the timestamp is the clock
    reading on ['open'], else the clock reading of a successful encoding,
    else what it was. *)
Theorem status_and_timestamp_after_update :
  forall (DR : DisconnectReasonT) (enc : JsVal -> Result string)
         (v : Variant) (env : Env) (update : JsVal) (w : World),
    connectionStatus (snd (on_connection_update DR enc v env update w)) =
      (if truthy (prop update "connection") then prop update "connection"
       else if has_challenge update then
              match enc (prop update "qr") with
              | Ok _ => JStr "qr-generated"
              | Failed _ => connectionStatus w
              end
            else connectionStatus w)
    /\ qrLastUpdated (snd (on_connection_update DR enc v env update w)) =
       (if reports_open update then Some (date_open env)
        else if has_challenge update then
               match enc (prop update "qr") with
               | Ok _ => Some (date_qr env)
               | Failed _ => qrLastUpdated w
               end
             else qrLastUpdated w).
Proof.
  intros. split; [apply status_after_update_aux | apply stamp_after_update_aux].
Qed.

(** ** [start], step by step *)

Lemma try_catch_normal {A} (m : M A) (h : JsVal -> M A) (w w' : World) (a : A) :
  m w = (Normal a, w') -> try_catch m h w = (Normal a, w').
Proof. unfold try_catch. now intros ->. Qed.

Lemma start_body_unfold v senv :
  start_body v senv =
  (modify (set_connectionStatus (JStr "fetching-baileys-version")) ;;
   version <- resolve_version v senv ;;
   start_from_load v senv version).
Proof. reflexivity. Qed.

(** The lookup logs at info or warning level only. *)
Lemma resolve_version_settled_levels v senv w r :
  fetch_version senv = Settled r ->
  exists l,
    resolve_version v senv w =
    (Normal (resolved_version r),
     after w (latestQRCodeDataUrl w) (qrLastUpdated w) (connectionStatus w)
           (auth_present w) l)
    /\ only_logs l = true /\ logged Error l = 0%nat /\ logged Debug l = 0%nat.
Proof.
  intros H. destruct r as [fetched|e]; simpl.
  - rewrite (resolve_version_resolved v senv w fetched H). eexists.
    split; [reflexivity | repeat split].
  - rewrite (resolve_version_rejected v senv w e H). eexists.
    split; [reflexivity | repeat split].
Qed.

(** What follows the version resolution either throws before any listener
    is registered, or registers the three listeners and returns the socket. *)
Lemma start_from_load_spec v senv version w :
  exists l,
    (if start_fails v senv then
       exists e,
         start_from_load v senv version w =
         (Throws e,
          after w (latestQRCodeDataUrl w) (qrLastUpdated w)
                (match v with
                 | MultiFile =>
                     if is_failed (load_auth senv) then connectionStatus w
                     else JStr "starting-socket"
                 | SingleFile => JStr "starting-socket"
                 end)
                (present_after_load v senv (auth_present w)) l)
         /\ listeners l = []
     else
       start_from_load v senv version w =
       (Normal (sock_of version),
        after w (latestQRCodeDataUrl w) (qrLastUpdated w) (JStr "starting-socket")
              (present_after_load v senv (auth_present w)) l)
       /\ listeners l = ["creds.update"; "connection.update"; "messages.upsert"])
    /\ scheduled l = [] /\ logged Error l = 0%nat
    /\ store_calls l = load_calls v
    /\ sockets l = (match v with
                    | MultiFile => if is_failed (load_auth senv) then [] else [version]
                    | SingleFile => [version]
                    end)
    /\ logged Debug l = (if bind_swallowed v senv then 1%nat else 0%nat).
Proof.
  destruct w as [img stamp status present t].
  destruct senv as [fetch load mk bs].
  unfold start_from_load, start_fails, bind_swallowed, present_after_load,
         load_calls, useMultiFileAuthState, store_bind, after.
  destruct v, load as [[]|e0], mk as [[]|e1], bs as [[[]|e2]|];
    run_monad; rewrite <- ?app_assoc; simpl;
    eexists; (split; [first [eexists; split; reflexivity | split; reflexivity]
                     | repeat split]).
Qed.

(** The whole of [start] once the lookup has settled. *)
Lemma start_spec v senv w r :
  fetch_version senv = Settled r ->
  exists l,
    start v senv w =
    (Normal (if start_fails v senv then JUndefined
             else sock_of (resolved_version r)),
     after w (latestQRCodeDataUrl w) (qrLastUpdated w)
           (status_after_start v senv)
           (present_after_load v senv (auth_present w)) l)
    /\ listeners l = (if start_fails v senv then []
                      else ["creds.update"; "connection.update"; "messages.upsert"])
    /\ scheduled l = (if start_fails v senv then [5000] else [])
    /\ logged Error l = (if start_fails v senv then 1%nat else 0%nat)
    /\ store_calls l = load_calls v
    /\ sockets l = (match v with
                    | MultiFile =>
                        if is_failed (load_auth senv) then []
                        else [resolved_version r]
                    | SingleFile => [resolved_version r]
                    end)
    /\ logged Debug l = (if bind_swallowed v senv then 1%nat else 0%nat).
Proof.
  intros H. unfold start. rewrite start_body_unfold.
  erewrite try_catch_bind_normal by reflexivity.
  destruct (resolve_version_settled_levels v senv
              (set_connectionStatus (JStr "fetching-baileys-version") w) r H)
    as (l0 & E & O & L0 & G0).
  destruct (only_logs_quiet l0 O) as (S0 & C0 & _ & K0).
  assert (N0 : listeners l0 = []).
  { clear - O. induction l0 as [|x l0 IH]; [reflexivity|].
    simpl in O. destruct x; try discriminate O. exact (IH O). }
  erewrite try_catch_bind_normal by exact E.
  match goal with
  | |- context [try_catch (start_from_load v senv ?ver) _ ?w2] =>
      destruct (start_from_load_spec v senv ver w2)
        as (l & B & Hs & He & Hc & Hk & Hg)
  end.
  unfold status_after_start.
  destruct (start_fails v senv) eqn:F.
  - destruct B as (e & B & Hn).
    rewrite (try_catch_throws _ _ _ _ _ B).
    exists (l0 ++ l ++ [ELog Error (msg_start_error v) [e]; ESetTimeout 5000]).
    split.
    + run_monad. unfold after. simpl. rewrite <- !app_assoc. simpl.
      destruct v; [destruct (is_failed (load_auth senv))|]; reflexivity.
    + rewrite !listeners_app, !scheduled_app, !logged_app, !store_calls_app,
              !sockets_app.
      rewrite N0, Hn, S0, Hs, L0, He, C0, Hc, K0, Hk, G0, Hg. simpl.
      rewrite ?app_nil_r. repeat split.
      unfold logged. simpl. lia.
  - destruct B as (B & Hn).
    rewrite (try_catch_normal _ _ _ _ _ B).
    exists (l0 ++ l). split.
    + unfold after. simpl. rewrite <- !app_assoc.
      destruct v; [|reflexivity].
      unfold start_fails in F. apply orb_false_iff in F. destruct F as [F _].
      now rewrite F.
    + rewrite !listeners_app, !scheduled_app, !logged_app, !store_calls_app,
              !sockets_app.
      rewrite N0, Hn, S0, Hs, L0, He, C0, Hc, K0, Hk, G0, Hg. simpl. repeat split.
Qed.

(** X4.  Once the version lookup has settled, [start] is all or nothing:
    either one of the calls of [start_fails] failed, and then no listener is
    registered, the failure is logged once at error level, one retry is
    scheduled 5000 ms later and [start] returns undefined; or none failed,
    and then the three listeners are registered in the order
    ['creds.update'], ['connection.update'], ['messages.upsert'], nothing is
    scheduled, the status is ['starting-socket'] and [start] returns the
    socket built with the resolved version.  A failing store binding is such
    a failure in the second file only: in [index.js] it has its own
    [catch]. *)
Theorem start_registers_all_listeners_or_retries :
  forall (v : Variant) (senv : StartEnv) (w : World) (r : Result JsVal),
    fetch_version senv = Settled r ->
    (start_fails v senv = true ->
       fst (start v senv w) = Normal JUndefined
       /\ listeners (trace (snd (start v senv w))) = listeners (trace w)
       /\ scheduled (trace (snd (start v senv w))) = scheduled (trace w) ++ [5000]
       /\ logged Error (trace (snd (start v senv w))) = S (logged Error (trace w)))
    /\ (start_fails v senv = false ->
       fst (start v senv w) = Normal (sock_of (resolved_version r))
       /\ listeners (trace (snd (start v senv w))) =
          listeners (trace w) ++ ["creds.update"; "connection.update"; "messages.upsert"]
       /\ scheduled (trace (snd (start v senv w))) = scheduled (trace w)
       /\ logged Error (trace (snd (start v senv w))) = logged Error (trace w)
       /\ connectionStatus (snd (start v senv w)) = JStr "starting-socket").
Proof.
  intros v senv w r H.
  destruct (start_spec v senv w r H) as (l & E & Hn & Hs & He & _).
  rewrite E. unfold after. simpl.
  rewrite listeners_app, scheduled_app, logged_app, Hn, Hs, He.
  split; intros F; rewrite F; rewrite ?app_nil_r; repeat split.
  - lia.
  - lia.
  - unfold status_after_start. destruct v; [|reflexivity].
    unfold start_fails in F. apply orb_false_iff in F. destruct F as [F _].
    now rewrite F.
Qed.

(** X5.  [start] and the credential store.  In the second file [start]
    never loads, writes or removes the store, whatever happens: a restart
    goes on with the credentials held in memory.  In [index.js], once the
    lookup has settled, [start] loads the store exactly once, and the store
    exists afterwards when the load succeeded (the directory is created
    again after a deletion); while the lookup is pending the store is not
    touched. *)
Theorem start_and_the_credential_store :
  forall (v : Variant) (senv : StartEnv) (w : World),
    (v = SingleFile ->
       store_calls (trace (snd (start v senv w))) = store_calls (trace w)
       /\ auth_present (snd (start v senv w)) = auth_present w)
    /\ (v = MultiFile -> fetch_version senv <> NeverSettles ->
       store_calls (trace (snd (start v senv w))) = store_calls (trace w) ++ [ELoadAuth]
       /\ auth_present (snd (start v senv w)) =
          (if is_failed (load_auth senv) then auth_present w else true))
    /\ (fetch_version senv = NeverSettles ->
       store_calls (trace (snd (start v senv w))) = store_calls (trace w)
       /\ auth_present (snd (start v senv w)) = auth_present w).
Proof.
  intros v senv w.
  assert (P : fetch_version senv = NeverSettles ->
              store_calls (trace (snd (start v senv w))) = store_calls (trace w)
              /\ auth_present (snd (start v senv w)) = auth_present w).
  { intros H. rewrite (start_pending v senv w H). now split. }
  split; [|split; [|exact P]].
  - intros ->. destruct (fetch_version senv) as [r|] eqn:H; [|now apply P].
    destruct (start_spec SingleFile senv w r H) as (l & E & _ & _ & _ & Hc & _).
    rewrite E. unfold after. simpl. rewrite store_calls_app, Hc. simpl.
    now rewrite app_nil_r.
  - intros -> Hp. destruct (fetch_version senv) as [r|] eqn:H; [|now destruct Hp].
    destruct (start_spec MultiFile senv w r H) as (l & E & _ & _ & _ & Hc & _).
    rewrite E. unfold after. simpl. rewrite store_calls_app, Hc. now split.
Qed.

(** ** Runs *)

Ltac reader_side :=
  unfold add_effect; simpl;
  rewrite ?sockets_app, ?scheduled_app, ?store_calls_app, ?listeners_app;
  simpl; now rewrite ?app_nil_r.

Lemma creds_update_keeps_scheduled save :
  keeps (fun w => scheduled (trace w)) (on_creds_update save).
Proof. unfold on_creds_update. keeps_tac; reader_side. Qed.

Lemma messages_upsert_keeps_scheduled v m :
  keeps (fun w => scheduled (trace w)) (on_messages_upsert v m).
Proof.
  unfold on_messages_upsert, messages_upsert_body, message_turn.
  keeps_tac; reader_side.
Qed.

Lemma start_keeps_stamp v senv : keeps qrLastUpdated (start v senv).
Proof.
  unfold start, start_body, resolve_version, useMultiFileAuthState, store_bind.
  keeps_tac.
Qed.

Lemma creds_update_keeps_stamp save : keeps qrLastUpdated (on_creds_update save).
Proof. unfold on_creds_update. keeps_tac. Qed.

Lemma messages_upsert_keeps_stamp v m : keeps qrLastUpdated (on_messages_upsert v m).
Proof.
  unfold on_messages_upsert, messages_upsert_body, message_turn. keeps_tac.
Qed.

(** The restarts one step schedules. *)
Lemma scheduled_after_step DR enc v s w :
  scheduled (trace (step DR enc v s w)) =
  scheduled (trace w) ++ step_restarts DR v s.
Proof.
  destruct s as [senv | env update | save | m]; simpl.
  - destruct (fetch_version senv) as [r|] eqn:H.
    + destruct (start_spec v senv w r H) as (l & E & _ & Hs & _).
      rewrite E. unfold after. simpl. now rewrite scheduled_app, Hs.
    + rewrite (start_pending v senv w H). simpl. now rewrite app_nil_r.
  - apply scheduled_after_update_aux.
  - rewrite app_nil_r. apply (creds_update_keeps_scheduled save w).
  - rewrite app_nil_r. apply (messages_upsert_keeps_scheduled v m w).
Qed.

Lemma step_restarts_tiers DR v s :
  Forall (fun d => d = 2000 \/ d = 5000) (step_restarts DR v s)
  /\ (List.length (step_restarts DR v s) <= 1)%nat.
Proof.
  destruct s as [senv | env update | save | m]; simpl;
    try (split; [constructor | lia]).
  - destruct (fetch_version senv); [destruct (start_fails v senv)|]; simpl;
      (split; [repeat (apply Forall_cons || apply Forall_nil); auto | lia]).
  - unfold restart_of, restart_delay. destruct (is_disconnect update); simpl;
      [|split; [constructor | lia]].
    split; [|lia]. constructor; [|constructor].
    destruct (is_bad_or_logged_out DR (code_of update)); auto.
    destruct (is_restart_or_closed DR (code_of update)); auto.
Qed.

(** X6.  Over any run of the process, the restarts scheduled are exactly
    those of its steps, in order: one per disconnect update and one per
    failed [start], none for the other steps.  So every delay ever scheduled
    is 2000 ms or 5000 ms (no back-off, whatever came before), no step
    schedules more than one restart, and nothing scheduled is ever
    withdrawn. *)
Theorem restarts_of_a_run :
  forall (DR : DisconnectReasonT) (enc : JsVal -> Result string) (v : Variant)
         (steps : list Step) (w : World),
    scheduled (trace (run DR enc v steps w)) =
      scheduled (trace w) ++ flat_map (step_restarts DR v) steps
    /\ Forall (fun d => d = 2000 \/ d = 5000) (flat_map (step_restarts DR v) steps)
    /\ (List.length (flat_map (step_restarts DR v) steps) <= List.length steps)%nat.
Proof.
  intros DR enc v steps. induction steps as [|s rest IH]; intros w; simpl.
  - rewrite app_nil_r. split; [reflexivity|]. split; [constructor | lia].
  - destruct (IH (step DR enc v s w)) as (E & F & L).
    destruct (step_restarts_tiers DR v s) as (Fs & Ls).
    change (run DR enc v (s :: rest) w) with (run DR enc v rest (step DR enc v s w)).
    rewrite E, scheduled_after_step, <- app_assoc.
    split; [reflexivity|]. split.
    + apply Forall_app. now split.
    + rewrite length_app. lia.
Qed.

(** X7.  Over any run from the initial state, a pairing image never comes
    without its timestamp: whenever [latestQRCodeDataUrl] is set,
    [qrLastUpdated] is set too, so the page that shows the image on [/]
    always has a generation time to show. *)
Theorem image_comes_with_timestamp :
  forall (DR : DisconnectReasonT) (enc : JsVal -> Result string) (v : Variant)
         (steps : list Step) (store_on_disk : bool),
    let w := run DR enc v steps (initial_world store_on_disk) in
    (latestQRCodeDataUrl w <> None -> qrLastUpdated w <> None)
    /\ (forall status stamp url,
          root_page w = QrPage status stamp url -> stamp <> None).
Proof.
  intros DR enc v steps store.
  assert (I : forall w0,
             (latestQRCodeDataUrl w0 <> None -> qrLastUpdated w0 <> None) ->
             latestQRCodeDataUrl (run DR enc v steps w0) <> None ->
             qrLastUpdated (run DR enc v steps w0) <> None).
  { induction steps as [|s rest IH]; intros w0 H0; [exact H0|].
    change (run DR enc v (s :: rest) w0) with (run DR enc v rest (step DR enc v s w0)).
    apply IH. clear IH.
    destruct s as [senv | env update | save | m]; simpl.
    - now rewrite start_keeps_image, start_keeps_stamp.
    - rewrite image_after_update, stamp_after_update_aux.
      destruct (reports_open update); [discriminate|].
      destruct (has_challenge update); [|exact H0].
      destruct (enc (prop update "qr")); [discriminate | exact H0].
    - now rewrite creds_update_keeps_image, creds_update_keeps_stamp.
    - now rewrite messages_upsert_keeps_image, messages_upsert_keeps_stamp. }
  intros w. subst w.
  assert (J := I (initial_world store) (fun H => False_ind _ (H eq_refl))).
  split; [exact J|].
  intros status stamp url. unfold root_page.
  destruct (latestQRCodeDataUrl (run DR enc v steps (initial_world store)))
    as [u|] eqn:E; [|discriminate].
  destruct (String.eqb u ""); [discriminate|].
  intros P. inversion P; subst. apply J. discriminate.
Qed.

(** ** The ['messages.upsert'] listener *)

Lemma message_turn_passes v msg w :
  passes msg = true ->
  message_turn v msg w =
  (Normal tt, if reported msg then add_effect (message_entry v msg) w else w).
Proof.
  unfold passes, reported, message_turn, message_entry. intros H.
  apply andb_prop in H. destruct H as [Hn Hk].
  apply negb_true_iff in Hn. cbv [bind member]. rewrite Hn.
  cbv [ret]. destruct (truthy (prop msg "message")); simpl in *; [|reflexivity].
  apply negb_true_iff in Hk. now rewrite Hk.
Qed.

Lemma message_turn_fails v msg w :
  passes msg = false -> message_turn v msg w = (Throws TypeError, w).
Proof.
  unfold passes, message_turn. intros H. cbv [bind member].
  destruct (nullish msg); simpl in *; [reflexivity|].
  cbv [ret]. destruct (truthy (prop msg "message")); simpl in *; [|discriminate].
  apply negb_false_iff in H. now rewrite H.
Qed.

Lemma for_each_passes v elems : forall w,
  forallb passes elems = true ->
  for_each (message_turn v) elems w =
  (Normal tt,
   after w (latestQRCodeDataUrl w) (qrLastUpdated w) (connectionStatus w)
         (auth_present w) (map (message_entry v) (filter reported elems))).
Proof.
  induction elems as [|x rest IH]; intros w H; simpl in *.
  - unfold ret, after. rewrite app_nil_r. now destruct w.
  - apply andb_prop in H. destruct H as [Hx Hr].
    cbv [bind]. rewrite (message_turn_passes v x w Hx), (IH _ Hr).
    destruct (reported x); [|reflexivity].
    unfold after, add_effect. simpl. now rewrite <- app_assoc.
Qed.

Lemma for_each_app (body : JsVal -> M unit) (a b : list JsVal) (w : World) :
  for_each body (a ++ b) w = (for_each body a ;; for_each body b) w.
Proof.
  revert w. induction a as [|x a IH]; intros w; simpl.
  - reflexivity.
  - cbv [bind]. destruct (body x w) as [[[]| e |] w1]; [|reflexivity|reflexivity].
    rewrite IH. reflexivity.
Qed.

(** A message the loop does not get through ends the loop there, whatever
    follows. *)
Lemma for_each_stops v pre bad post w :
  forallb passes pre = true -> passes bad = false ->
  for_each (message_turn v) (pre ++ bad :: post) w =
  (Throws TypeError,
   after w (latestQRCodeDataUrl w) (qrLastUpdated w) (connectionStatus w)
         (auth_present w) (map (message_entry v) (filter reported pre))).
Proof.
  intros Hp Hb. rewrite for_each_app. cbv [bind].
  rewrite (for_each_passes v pre w Hp). simpl. cbv [bind].
  now rewrite (message_turn_fails v bad _ Hb).
Qed.

Lemma messages_body_array v m elems w :
  prop m "messages" = JArr elems ->
  messages_upsert_body v m w = for_each (message_turn v) elems w.
Proof.
  intros H. unfold messages_upsert_body. cbv [bind member].
  destruct (nullish m) eqn:Hn.
  - rewrite (prop_of_nullish _ _ Hn) in H. discriminate H.
  - cbv [ret]. now rewrite H.
Qed.

Lemma logged_entries v lvl (l : list JsVal) :
  logged lvl (map (message_entry v) l) =
  match lvl with Info => List.length l | _ => 0%nat end.
Proof.
  unfold logged. induction l as [|x l IH]; simpl.
  - now destruct lvl.
  - destruct lvl; simpl in *; now rewrite ?IH.
Qed.

(** The key that is logged is the first in the order of [Object.keys]: an
    array index comes before any other key, whatever the insertion order,
    and the least index comes first. *)
Lemma first_key_order :
  first_key (JObj [("b", JNum 1); ("1", JNum 2)]) = JStr "1"
  /\ first_key (JObj [("10", JNum 1); ("9", JNum 2); ("a", JNum 3)]) = JStr "9"
  /\ first_key (JObj [("conversation", JStr "hi"); ("01", JNum 2)]) = JStr "conversation"
  /\ first_key (JObj []) = JUndefined
  /\ first_key (JNum 7) = JUndefined.
Proof. repeat split. Qed.

(** X8.  When every message of the batch gets through the loop (none is null
    or undefined, and each one that has a [message] has a [key]), the
    ['messages.upsert'] listener completes and the trace grows by exactly
    one info entry per message that has a [message], in the order of the
    batch; messages without a [message] are skipped silently and nothing is
    logged at error level. *)
Theorem well_formed_batch_is_reported :
  forall (v : Variant) (m : JsVal) (elems : list JsVal) (w : World),
    prop m "messages" = JArr elems ->
    forallb passes elems = true ->
    on_messages_upsert v m w =
      (Normal tt,
       after w (latestQRCodeDataUrl w) (qrLastUpdated w) (connectionStatus w)
             (auth_present w) (map (message_entry v) (filter reported elems)))
    /\ logged Info (trace (snd (on_messages_upsert v m w))) =
       (logged Info (trace w) + List.length (filter reported elems))%nat
    /\ logged Error (trace (snd (on_messages_upsert v m w))) = logged Error (trace w).
Proof.
  intros v m elems w Hm Hp.
  assert (E : on_messages_upsert v m w =
              (Normal tt,
               after w (latestQRCodeDataUrl w) (qrLastUpdated w) (connectionStatus w)
                     (auth_present w) (map (message_entry v) (filter reported elems)))).
  { unfold on_messages_upsert. apply try_catch_normal.
    rewrite (messages_body_array v m elems w Hm). now apply for_each_passes. }
  rewrite E. unfold after. simpl. rewrite !logged_app, !logged_entries.
  repeat split. lia.
Qed.

(** X9.  A message that the loop cannot get through (null, undefined, or
    with a [message] but no [key]) ends the batch: the messages before it
    are reported, one error is logged, and the messages after it are never
    looked at, so the outcome is the same whatever follows it. *)
Theorem bad_message_drops_the_rest :
  forall (v : Variant) (m m' : JsVal) (pre post post' : list JsVal)
         (bad : JsVal) (w : World),
    prop m "messages" = JArr (pre ++ bad :: post) ->
    prop m' "messages" = JArr (pre ++ bad :: post') ->
    forallb passes pre = true ->
    passes bad = false ->
    on_messages_upsert v m w = on_messages_upsert v m' w
    /\ fst (on_messages_upsert v m w) = Normal tt
    /\ logged Info (trace (snd (on_messages_upsert v m w))) =
       (logged Info (trace w) + List.length (filter reported pre))%nat
    /\ logged Error (trace (snd (on_messages_upsert v m w))) =
       S (logged Error (trace w)).
Proof.
  intros v m m' pre post post' bad w Hm Hm' Hp Hb.
  assert (E : forall x tl, prop x "messages" = JArr (pre ++ bad :: tl) ->
              on_messages_upsert v x w =
              (Normal tt,
               add_effect (ELog Error "Erreur messages.upsert:" [TypeError])
                 (after w (latestQRCodeDataUrl w) (qrLastUpdated w)
                        (connectionStatus w) (auth_present w)
                        (map (message_entry v) (filter reported pre))))).
  { intros x tl Hx. unfold on_messages_upsert.
    erewrite try_catch_throws; [reflexivity|].
    rewrite (messages_body_array v x _ w Hx). now apply for_each_stops. }
  rewrite (E m post Hm), (E m' post' Hm').
  unfold after, add_effect. simpl. rewrite !logged_app, !logged_entries.
  unfold logged. simpl. repeat split; lia.
Qed.

(** X10.  The edges of the ['messages.upsert'] listener.  An event that is
    null or undefined, or whose [messages] is a non-zero number, [true] or a
    plain object, costs one error entry and nothing else; an event whose
    [messages] is missing or falsy, or is a string, leaves the world exactly
    as it was. *)
Theorem messages_upsert_edges :
  forall (v : Variant) (m : JsVal) (w : World),
    (nullish m = true ->
       on_messages_upsert v m w =
       (Normal tt, add_effect (ELog Error "Erreur messages.upsert:" [TypeError]) w))
    /\ (nullish m = false -> truthy (prop m "messages") = true ->
        not_iterable (prop m "messages") = true ->
        on_messages_upsert v m w =
        (Normal tt, add_effect (ELog Error "Erreur messages.upsert:" [TypeError]) w))
    /\ (nullish m = false -> truthy (prop m "messages") = false ->
        on_messages_upsert v m w = (Normal tt, w))
    /\ (forall s, prop m "messages" = JStr s ->
        on_messages_upsert v m w = (Normal tt, w)).
Proof.
  intros v m w.
  unfold on_messages_upsert, messages_upsert_body.
  cbv [try_catch bind member]. repeat split.
  - intros ->. reflexivity.
  - intros -> Ht Hi. cbv [ret]. rewrite Ht.
    destruct (prop m "messages"); simpl in *; try discriminate; reflexivity.
  - intros -> Ht. cbv [ret]. rewrite Ht. reflexivity.
  - intros s Hs. destruct (nullish m) eqn:Hn.
    + rewrite (prop_of_nullish _ _ Hn) in Hs. discriminate Hs.
    + cbv [ret]. rewrite Hs. simpl. now destruct (negb (String.eqb s "")).
Qed.

(** X11.  Whatever the event, the ['messages.upsert'] listener only logs:
    it never writes the status, the pairing image or its timestamp, never
    touches the credential store, never schedules a restart, builds no
    socket and registers no listener. *)
Theorem messages_upsert_only_logs :
  forall (v : Variant) (m : JsVal) (w : World),
    let w' := snd (on_messages_upsert v m w) in
    connectionStatus w' = connectionStatus w
    /\ latestQRCodeDataUrl w' = latestQRCodeDataUrl w
    /\ qrLastUpdated w' = qrLastUpdated w
    /\ auth_present w' = auth_present w
    /\ store_calls (trace w') = store_calls (trace w)
    /\ scheduled (trace w') = scheduled (trace w)
    /\ sockets (trace w') = sockets (trace w)
    /\ listeners (trace w') = listeners (trace w).
Proof.
  intros v m w w'. subst w'.
  assert (K : forall X (f : World -> X),
             (forall e w0, (exists lvl msg args, e = ELog lvl msg args) ->
                           f (add_effect e w0) = f w0) ->
             keeps f (on_messages_upsert v m)).
  { intros X f Hf.
    unfold on_messages_upsert, messages_upsert_body, message_turn.
    keeps_tac; apply Hf; eauto. }
  repeat split.
  - apply (K _ connectionStatus). reflexivity.
  - apply (K _ latestQRCodeDataUrl). reflexivity.
  - apply (K _ qrLastUpdated). reflexivity.
  - apply (K _ auth_present). reflexivity.
  - apply (K _ (fun w0 => store_calls (trace w0))).
    intros e w0 (lvl & msg & args & ->). reader_side.
  - apply (K _ (fun w0 => scheduled (trace w0))).
    intros e w0 (lvl & msg & args & ->). reader_side.
  - apply (K _ (fun w0 => sockets (trace w0))).
    intros e w0 (lvl & msg & args & ->). reader_side.
  - apply (K _ (fun w0 => listeners (trace w0))).
    intros e w0 (lvl & msg & args & ->). reader_side.
Qed.

(** ** Disconnects, continued *)

(** The handler-level effect of the first disconnect branch. *)
Lemma reinitializing_aux (DR : DisconnectReasonT) (enc : JsVal -> Result string)
      (v : Variant) (env : Env) (update : JsVal) (w : World) :
  is_disconnect update = true ->
  is_bad_or_logged_out DR (code_of update) = true ->
  fst (on_connection_update DR enc v env update w) = Normal tt
  /\ scheduled (trace (snd (on_connection_update DR enc v env update w))) =
     scheduled (trace w) ++ [2000]
  /\ deletions (trace (snd (on_connection_update DR enc v env update w))) =
     (deletions (trace w) + delete_calls v w)%nat
  /\ auth_present (snd (on_connection_update DR enc v env update w)) =
     auth_present w && fs_denied env.
Proof.
  intros Hd Hb.
  rewrite (on_connection_update_blocks DR enc v env update w
             (is_disconnect_not_nullish _ Hd)).
  destruct (before_disconnect enc v env update w) as (l0 & T & O & A).
  destruct (only_logs_quiet l0 O) as (S0 & _ & D0 & _).
  destruct (disconnect_block_reinitializing DR v env _
              (snd (connection_block v env (prop update "connection")
                      (snd (qr_block enc v env (prop update "qr") w)))) Hd Hb)
    as (l & E & Hs & _ & Hdel & _).
  rewrite E. unfold after. simpl. rewrite T, A.
  rewrite !scheduled_app, !deletions_app, S0, D0, Hs, Hdel, app_nil_r.
  repeat split. unfold delete_calls. rewrite A. simpl. lia.
Qed.

(** X12.  Two [badSession] or [loggedOut] disconnects in a row, on a store
    that exists and that the system lets go: the first one removes the
    store, the second one finds it absent and still completes and schedules
    its own restart, so two restarts are pending and the store is absent.
    [index.js] makes one removal call in all (the second run skips it);
    the second file makes two (the second one fails and is logged). *)
Theorem repeated_reinitializing :
  forall (DR : DisconnectReasonT) (enc : JsVal -> Result string) (v : Variant)
         (env1 env2 : Env) (u1 u2 : JsVal) (w : World),
    is_disconnect u1 = true ->
    is_bad_or_logged_out DR (code_of u1) = true ->
    is_disconnect u2 = true ->
    is_bad_or_logged_out DR (code_of u2) = true ->
    auth_present w = true ->
    fs_denied env1 = false ->
    let w1 := snd (on_connection_update DR enc v env1 u1 w) in
    let r2 := on_connection_update DR enc v env2 u2 w1 in
    auth_present w1 = false
    /\ fst r2 = Normal tt
    /\ auth_present (snd r2) = false
    /\ scheduled (trace (snd r2)) = scheduled (trace w) ++ [2000; 2000]
    /\ deletions (trace (snd r2)) =
       (deletions (trace w)
        + match v with MultiFile => 1 | SingleFile => 2 end)%nat.
Proof.
  intros DR enc v env1 env2 u1 u2 w D1 B1 D2 B2 Hp Hf w1 r2. subst r2 w1.
  destruct (reinitializing_aux DR enc v env1 u1 w D1 B1) as (_ & S1 & De1 & A1).
  rewrite Hp, Hf in A1. simpl in A1.
  destruct (reinitializing_aux DR enc v env2 u2
              (snd (on_connection_update DR enc v env1 u1 w)) D2 B2)
    as (N2 & S2 & De2 & A2).
  rewrite A1 in A2. simpl in A2.
  rewrite S2, S1, De2, De1, <- app_assoc.
  repeat split; try assumption.
  unfold delete_calls. rewrite A1, Hp. destruct v; lia.
Qed.

(** X14.  A reason code that is not a number (a string such as ['401'],
    null, undefined, an object) is never one of the four named reasons,
    since the listener compares with [===]: the disconnect is retried after
    5000 ms and the credential store is left alone. *)
Theorem non_numeric_reason_waits :
  forall (DR : DisconnectReasonT) (enc : JsVal -> Result string)
         (v : Variant) (env : Env) (update : JsVal) (w : World),
    is_disconnect update = true ->
    (forall n, code_of update <> JNum n) ->
    scheduled (trace (snd (on_connection_update DR enc v env update w))) =
      scheduled (trace w) ++ [5000]
    /\ store_calls (trace (snd (on_connection_update DR enc v env update w))) =
       store_calls (trace w)
    /\ auth_present (snd (on_connection_update DR enc v env update w)) =
       auth_present w.
Proof.
  intros DR enc v env update w Hd Hn.
  destruct (non_numeric_code_unclassified DR _ Hn) as (Hb & Hr).
  split.
  - rewrite scheduled_after_update_aux. unfold restart_of, restart_delay.
    now rewrite Hd, Hb, Hr.
  - apply store_untouched_aux. now rewrite Hd, Hb.
Qed.

(** On the property names the program reads, optional chaining and plain
    access give the same value: both are undefined on a value that is not
    an object. *)
Lemma opt_prop_is_prop (x : JsVal) (name : string) : opt_prop x name = prop x name.
Proof.
  unfold opt_prop. destruct (nullish x) eqn:H; [|reflexivity].
  now rewrite (prop_of_nullish _ _ H).
Qed.

(** X16.  The reason code of a disconnect is [error.output.statusCode] when
    that is truthy, and [error.statusCode] otherwise: an output code of 0, a
    missing [output] or a missing [output.statusCode] all fall through to
    the top-level code, and a truthy output code hides it.  The restart is
    scheduled accordingly. *)
Theorem status_code_falls_back_to_top_level :
  forall (DR : DisconnectReasonT) (enc : JsVal -> Result string)
         (v : Variant) (env : Env) (update : JsVal) (w : World),
    is_disconnect update = true ->
    let err := prop (prop update "lastDisconnect") "error" in
    let inner := prop (prop err "output") "statusCode" in
    code_of update = (if truthy inner then inner else prop err "statusCode")
    /\ scheduled (trace (snd (on_connection_update DR enc v env update w))) =
       scheduled (trace w) ++
       [restart_delay DR (if truthy inner then inner else prop err "statusCode")].
Proof.
  intros DR enc v env update w Hd err inner.
  assert (C : code_of update = (if truthy inner then inner else prop err "statusCode")).
  { unfold code_of, reason_code, inner, err. now rewrite !opt_prop_is_prop. }
  split; [exact C|].
  rewrite scheduled_after_update_aux. unfold restart_of. now rewrite Hd, C.
Qed.

(** ** The pages *)

(** X13.  After an update that carries a pairing challenge and no connection
    state, when the challenge was encoded to a non-empty data URL, [/] shows
    the image page with that URL, the clock reading of the encoding and the
    status ['qr-generated'], and [/health] publishes the same status and
    timestamp. *)
Theorem page_shows_encoded_challenge :
  forall (DR : DisconnectReasonT) (enc : JsVal -> Result string)
         (v : Variant) (env : Env) (update : JsVal) (w : World) (url : string),
    has_challenge update = true ->
    enc (prop update "qr") = Ok url ->
    url <> "" ->
    truthy (prop update "connection") = false ->
    let w' := snd (on_connection_update DR enc v env update w) in
    root_page w' = QrPage (JStr "qr-generated") (Some (date_qr env)) url
    /\ health w' = mkHealth (JStr "qr-generated") (Some (date_qr env)).
Proof.
  intros DR enc v env update w url Hc He Hu Hconn w'. subst w'.
  assert (Ho : reports_open update = false).
  { unfold reports_open.
    destruct (strict_eq (prop update "connection") (JStr "open")) eqn:E;
      [|reflexivity].
    apply strict_eq_str in E. rewrite E in Hconn. discriminate Hconn. }
  unfold root_page, health.
  rewrite image_after_update, stamp_after_update_aux, status_after_update_aux.
  rewrite Ho, Hc, He, Hconn.
  apply String.eqb_neq in Hu. now rewrite Hu.
Qed.

(** X17.  The pairing image is emptied by nothing but an update that
    reports ['open']: a restart, a disconnect, a saved credential, a batch
    of messages or a failed encoding all leave a displayed image in place. *)
Theorem image_cleared_only_by_open :
  forall (DR : DisconnectReasonT) (enc : JsVal -> Result string) (v : Variant)
         (s : Step) (w : World),
    latestQRCodeDataUrl w <> None ->
    latestQRCodeDataUrl (step DR enc v s w) = None ->
    exists env update, s = SConnectionUpdate env update /\ reports_open update = true.
Proof.
  intros DR enc v s w Hw H.
  destruct s as [senv | env update | save | m]; simpl in H.
  - rewrite start_keeps_image in H. now destruct Hw.
  - exists env, update. split; [reflexivity|].
    rewrite image_after_update in H.
    destruct (reports_open update); [reflexivity|].
    destruct (has_challenge update); [|now destruct Hw].
    destruct (enc (prop update "qr")); [discriminate H | now destruct Hw].
  - rewrite creds_update_keeps_image in H. now destruct Hw.
  - rewrite messages_upsert_keeps_image in H. now destruct Hw.
Qed.

(** ** Computations that only add inert calls to the trace *)

Section Emits.

Variable P : Effect -> bool.

Lemma emits_ret {A} (a : A) : emits P (ret a).
Proof. intros w. exists []. simpl. now rewrite app_nil_r. Qed.

Lemma emits_throw {A} (e : JsVal) : emits P (@throw A e).
Proof. intros w. exists []. simpl. now rewrite app_nil_r. Qed.

Lemma emits_settle {A} (c : Completion A) : emits P (settle c).
Proof. intros w. exists []. simpl. now rewrite app_nil_r. Qed.

Lemma emits_lift {A} (r : Result A) : emits P (lift r).
Proof. destruct r; [apply emits_ret | apply emits_throw]. Qed.

Lemma emits_await {A} (p : Promise A) : emits P (await p).
Proof. destruct p; [apply emits_lift | apply emits_settle]. Qed.

Lemma emits_gets {A} (g : World -> A) : emits P (gets g).
Proof. intros w. exists []. simpl. now rewrite app_nil_r. Qed.

Lemma emits_modify (g : World -> World) :
  (forall w, trace (g w) = trace w) -> emits P (modify g).
Proof. intros H w. exists []. simpl. now rewrite H, app_nil_r. Qed.

Lemma emits_emit (e : Effect) : P e = true -> emits P (emit e).
Proof. intros H w. exists [e]. simpl. now rewrite H. Qed.

Lemma emits_logger lvl msg args :
  P (ELog lvl msg args) = true -> emits P (logger lvl msg args).
Proof. apply emits_emit. Qed.

Lemma emits_setTimeout d :
  P (ESetTimeout d) = true -> emits P (setTimeout_start d).
Proof. apply emits_emit. Qed.

Lemma emits_bind {A B} (m : M A) (k : A -> M B) :
  emits P m -> (forall a, emits P (k a)) -> emits P (bind m k).
Proof.
  intros Hm Hk w. unfold bind. destruct (Hm w) as (l1 & T1 & F1).
  destruct (m w) as [[a| e |] w1]; simpl in *; try (now exists l1).
  destruct (Hk a w1) as (l2 & T2 & F2). exists (l1 ++ l2).
  now rewrite T2, T1, app_assoc, forallb_app, F1, F2.
Qed.

Lemma emits_try_catch {A} (m : M A) (h : JsVal -> M A) :
  emits P m -> (forall e, emits P (h e)) -> emits P (try_catch m h).
Proof.
  intros Hm Hh w. unfold try_catch. destruct (Hm w) as (l1 & T1 & F1).
  destruct (m w) as [[a| e |] w1]; simpl in *; try (now exists l1).
  destruct (Hh e w1) as (l2 & T2 & F2). exists (l1 ++ l2).
  now rewrite T2, T1, app_assoc, forallb_app, F1, F2.
Qed.

Lemma emits_when (b : bool) (m : M unit) : emits P m -> emits P (when b m).
Proof. destruct b; simpl; [trivial | intros _; apply emits_ret]. Qed.

Lemma emits_member x name : emits P (member x name).
Proof. unfold member. destruct (nullish x); [apply emits_throw | apply emits_ret]. Qed.

Lemma emits_js_and a (b : M JsVal) : emits P b -> emits P (js_and a b).
Proof. unfold js_and. destruct (truthy a); [trivial | intros _; apply emits_ret]. Qed.

Lemma emits_for_each (body : JsVal -> M unit) (elems : list JsVal) :
  (forall x, emits P (body x)) -> emits P (for_each body elems).
Proof.
  intros H. induction elems as [|x rest IH]; simpl.
  - apply emits_ret.
  - apply emits_bind; [apply H | intros _; exact IH].
Qed.

End Emits.

Ltac emits_tac :=
  repeat match goal with
    | |- emits _ (match ?x with _ => _ end) => destruct x
    | |- emits _ (if ?x then _ else _) => destruct x
    | |- emits _ (let _ := _ in _) => cbv zeta
    | |- emits _ _ =>
        first
          [ apply emits_bind | apply emits_try_catch | apply emits_when
          | apply emits_js_and | apply emits_for_each
          | apply emits_ret | apply emits_throw | apply emits_settle
          | apply emits_lift | apply emits_await | apply emits_gets
          | apply emits_emit | apply emits_logger | apply emits_setTimeout
          | apply emits_member | apply emits_modify ]
    | |- forall _, _ => intro
    | |- _ = _ => reflexivity
    end.

Lemma inert_quiet (l : list Effect) :
  forallb inert l = true -> sockets l = [] /\ listeners l = [].
Proof.
  induction l as [|e l IH]; simpl; [now split|].
  intros H. apply andb_prop in H. destruct H as [He Hl].
  destruct (IH Hl) as (A & B).
  destruct e; simpl in *; try discriminate He; now split.
Qed.

Lemma on_connection_update_inert DR enc v env update :
  emits inert (on_connection_update DR enc v env update).
Proof.
  unfold on_connection_update, connection_update_body, qr_block,
         connection_block, disconnect_block, delete_auth, delete_attempt,
         fs_existsSync, fs_rmSync, fs_unlinkSync.
  emits_tac.
Qed.

Lemma on_creds_update_inert save : emits inert (on_creds_update save).
Proof. unfold on_creds_update. emits_tac. Qed.

Lemma on_messages_upsert_inert v m : emits inert (on_messages_upsert v m).
Proof.
  unfold on_messages_upsert, messages_upsert_body, message_turn. emits_tac.
Qed.

Lemma resolved_version_is_array (r : Result JsVal) :
  isArray (resolved_version r) = true.
Proof.
  destruct r as [fetched|e]; simpl; [|reflexivity]. unfold chosen_version.
  destruct (truthy fetched && isArray (prop fetched "version")) eqn:H;
    [|reflexivity].
  now apply andb_prop in H.
Qed.

(** The sockets and listeners one step adds. *)
Lemma sockets_and_listeners_after_step DR enc v s w :
  listeners (trace (step DR enc v s w)) = listeners (trace w) ++ step_listeners v s
  /\ exists l, sockets (trace (step DR enc v s w)) = sockets (trace w) ++ l
               /\ Forall (fun ver => isArray ver = true) l
               /\ (l <> [] -> exists senv, s = SStart senv).
Proof.
  assert (Q : forall (m : M unit),
             emits inert m ->
             listeners (trace (snd (m w))) = listeners (trace w) ++ []
             /\ exists l, sockets (trace (snd (m w))) = sockets (trace w) ++ l
                          /\ Forall (fun ver => isArray ver = true) l
                          /\ (l <> [] -> exists senv, s = SStart senv)).
  { intros m Hm. destruct (Hm w) as (l & T & F).
    destruct (inert_quiet l F) as (K & N).
    rewrite T, listeners_app, sockets_app, K, N. split; [reflexivity|].
    exists []. repeat split; [constructor | intros H; now destruct H]. }
  destruct s as [senv | env update | save | m]; simpl.
  - destruct (fetch_version senv) as [r|] eqn:H.
    + destruct (start_spec v senv w r H) as (l & E & Hn & _ & _ & _ & Hk & _).
      rewrite E. unfold after. simpl. rewrite listeners_app, sockets_app, Hn, Hk.
      split; [reflexivity|]. eexists. split; [reflexivity|].
      split; [|intros _; now exists senv].
      destruct v; [destruct (is_failed (load_auth senv))|];
        repeat constructor; apply resolved_version_is_array.
    + rewrite (start_pending v senv w H). simpl. rewrite !app_nil_r.
      split; [reflexivity|]. exists []. rewrite app_nil_r.
      repeat split; [constructor | intros F; now destruct F].
  - apply Q, on_connection_update_inert.
  - apply Q, on_creds_update_inert.
  - apply Q, on_messages_upsert_inert.
Qed.

(** X18.  Over any run of the process, listeners are registered by [start]
    alone and are never removed: every [start] that succeeds adds its three
    listeners to those already there (a restart does not replace the
    listeners of the socket before it), and no other step registers or
    removes any. *)
Theorem listeners_of_a_run :
  forall (DR : DisconnectReasonT) (enc : JsVal -> Result string) (v : Variant)
         (steps : list Step) (w : World),
    listeners (trace (run DR enc v steps w)) =
    listeners (trace w) ++ flat_map (step_listeners v) steps.
Proof.
  intros DR enc v steps. induction steps as [|s rest IH]; intros w.
  - simpl. now rewrite app_nil_r.
  - change (run DR enc v (s :: rest) w) with (run DR enc v rest (step DR enc v s w)).
    rewrite IH. destruct (sockets_and_listeners_after_step DR enc v s w) as (L & _).
    rewrite L. simpl. now rewrite app_assoc.
Qed.

(** X19.  Over any run from the initial state, every version handed to
    [makeWASocket] is an array: the fetched version array when the lookup
    gave one, the fallback [2, 2204, 13] otherwise. *)
Theorem socket_versions_are_arrays :
  forall (DR : DisconnectReasonT) (enc : JsVal -> Result string) (v : Variant)
         (steps : list Step) (store_on_disk : bool),
    Forall (fun ver => isArray ver = true)
           (sockets (trace (run DR enc v steps (initial_world store_on_disk)))).
Proof.
  intros DR enc v steps store.
  assert (I : forall w0,
             Forall (fun ver => isArray ver = true) (sockets (trace w0)) ->
             Forall (fun ver => isArray ver = true)
                    (sockets (trace (run DR enc v steps w0)))).
  { induction steps as [|s rest IH]; intros w0 H0; [exact H0|].
    change (run DR enc v (s :: rest) w0) with (run DR enc v rest (step DR enc v s w0)).
    apply IH.
    destruct (sockets_and_listeners_after_step DR enc v s w0) as (_ & l & E & F & _).
    rewrite E. apply Forall_app. now split. }
  apply I. constructor.
Qed.

(** ** The further properties at concrete inputs *)

Lemma store_untouched_witness :
  let DR := baileys_DisconnectReason in
  let u := close_update (JNum 408) in
  let w := initial_world true in
  is_disconnect u && is_bad_or_logged_out DR (code_of u) = false
  /\ store_calls (trace (snd (on_connection_update DR sample_toDataURL SingleFile
                                sample_env u w))) = []
  /\ auth_present (snd (on_connection_update DR sample_toDataURL SingleFile
                          sample_env u w)) = true.
Proof.
  split; [reflexivity|].
  exact (store_touched_only_when_reinitializing
           baileys_DisconnectReason sample_toDataURL SingleFile sample_env
           (close_update (JNum 408)) (initial_world true) eq_refl).
Defined.

Lemma start_all_or_nothing_witness :
  let good := mkStartEnv (Settled (Failed JNull)) (Ok tt) (Ok tt) (Some (Failed TypeError)) in
  let w := initial_world true in
  (fetch_version good = Settled (Failed JNull)
   /\ start_fails MultiFile good = false /\ start_fails SingleFile good = true)
  /\ (fst (start MultiFile good w) = Normal (sock_of fallback_version)
      /\ listeners (trace (snd (start MultiFile good w))) =
         ["creds.update"; "connection.update"; "messages.upsert"]
      /\ scheduled (trace (snd (start MultiFile good w))) = [])
  /\ (fst (start SingleFile good w) = Normal JUndefined
      /\ listeners (trace (snd (start SingleFile good w))) = []
      /\ scheduled (trace (snd (start SingleFile good w))) = [5000]).
Proof.
  split; [repeat split|]. split.
  - destruct (proj2 (start_registers_all_listeners_or_retries
                       MultiFile
                       (mkStartEnv (Settled (Failed JNull)) (Ok tt) (Ok tt)
                                   (Some (Failed TypeError)))
                       (initial_world true) (Failed JNull) eq_refl) eq_refl)
      as (A & B & C & _).
    split; [exact A|]. split; [exact B | exact C].
  - destruct (proj1 (start_registers_all_listeners_or_retries
                       SingleFile
                       (mkStartEnv (Settled (Failed JNull)) (Ok tt) (Ok tt)
                                   (Some (Failed TypeError)))
                       (initial_world true) (Failed JNull) eq_refl) eq_refl)
      as (A & B & C & _).
    split; [exact A|]. split; [exact B | exact C].
Defined.

Lemma start_and_store_witness :
  let senv := mkStartEnv (Settled (Failed JNull)) (Ok tt) (Ok tt) None in
  let gone := initial_world false in
  (store_calls (trace (snd (start SingleFile senv gone))) = []
   /\ auth_present (snd (start SingleFile senv gone)) = false)
  /\ (fetch_version senv <> NeverSettles
      /\ store_calls (trace (snd (start MultiFile senv gone))) = [ELoadAuth]
      /\ auth_present (snd (start MultiFile senv gone)) = true)
  /\ (fetch_version (mkStartEnv NeverSettles (Ok tt) (Ok tt) None) = NeverSettles
      /\ store_calls (trace (snd (start MultiFile
                                    (mkStartEnv NeverSettles (Ok tt) (Ok tt) None)
                                    gone))) = []).
Proof.
  split; [|split].
  - exact (proj1 (start_and_the_credential_store SingleFile
                    (mkStartEnv (Settled (Failed JNull)) (Ok tt) (Ok tt) None)
                    (initial_world false)) eq_refl).
  - split; [discriminate|].
    exact (proj1 (proj2 (start_and_the_credential_store MultiFile
                    (mkStartEnv (Settled (Failed JNull)) (Ok tt) (Ok tt) None)
                    (initial_world false))) eq_refl
             (fun H => eq_ind (Settled (Failed JNull))
                              (fun p => match p with Settled _ => True | NeverSettles => False end)
                              I NeverSettles H)).
  - split; [reflexivity|].
    exact (proj1 (proj2 (proj2 (start_and_the_credential_store MultiFile
                    (mkStartEnv NeverSettles (Ok tt) (Ok tt) None)
                    (initial_world false))) eq_refl)).
Defined.

Lemma image_with_timestamp_witness :
  let w := run baileys_DisconnectReason sample_toDataURL MultiFile
             [SConnectionUpdate sample_env (qr_update "XYZ")] (initial_world true) in
  (latestQRCodeDataUrl w <> None
   /\ root_page w = QrPage (JStr "qr-generated") (Some "2024-01-01T00:00:00.000Z")
                          "data:image/png;base64,XYZ")
  /\ qrLastUpdated w <> None
  /\ Some "2024-01-01T00:00:00.000Z" <> None.
Proof.
  split; [split; [discriminate | reflexivity]|].
  destruct (image_comes_with_timestamp baileys_DisconnectReason sample_toDataURL
              MultiFile [SConnectionUpdate sample_env (qr_update "XYZ")] true)
    as (A & B).
  split.
  - apply A. discriminate.
  - exact (B (JStr "qr-generated") (Some "2024-01-01T00:00:00.000Z")
             "data:image/png;base64,XYZ" eq_refl).
Defined.

Lemma well_formed_batch_witness :
  let batch := [text_message "a@s.whatsapp.net" "hi";
                JObj [("key", JObj [("remoteJid", JStr "b@s.whatsapp.net")])];
                text_message "c@s.whatsapp.net" "yo"] in
  let w := initial_world true in
  (prop (upsert_of batch) "messages" = JArr batch /\ forallb passes batch = true)
  /\ logged Info (trace (snd (on_messages_upsert MultiFile (upsert_of batch) w))) = 2%nat
  /\ logged Error (trace (snd (on_messages_upsert MultiFile (upsert_of batch) w))) = 0%nat.
Proof.
  split; [split; reflexivity|].
  exact (proj2 (well_formed_batch_is_reported MultiFile
                  (upsert_of [text_message "a@s.whatsapp.net" "hi";
                              JObj [("key", JObj [("remoteJid", JStr "b@s.whatsapp.net")])];
                              text_message "c@s.whatsapp.net" "yo"])
                  _ (initial_world true) eq_refl eq_refl)).
Defined.

Lemma bad_message_witness :
  let pre := [text_message "a@s.whatsapp.net" "hi"] in
  let bad := JObj [("message", JObj [("conversation", JStr "no key")])] in
  let post := [text_message "c@s.whatsapp.net" "yo"] in
  let w := initial_world true in
  (forallb passes pre = true /\ passes bad = false)
  /\ on_messages_upsert SingleFile (upsert_of (pre ++ bad :: post)) w =
     on_messages_upsert SingleFile (upsert_of (pre ++ [bad])) w
  /\ logged Info (trace (snd (on_messages_upsert SingleFile
                                (upsert_of (pre ++ bad :: post)) w))) = 1%nat
  /\ logged Error (trace (snd (on_messages_upsert SingleFile
                                 (upsert_of (pre ++ bad :: post)) w))) = 1%nat.
Proof.
  split; [split; reflexivity|].
  destruct (bad_message_drops_the_rest SingleFile
              (upsert_of ([text_message "a@s.whatsapp.net" "hi"]
                          ++ JObj [("message", JObj [("conversation", JStr "no key")])]
                          :: [text_message "c@s.whatsapp.net" "yo"]))
              (upsert_of ([text_message "a@s.whatsapp.net" "hi"]
                          ++ JObj [("message", JObj [("conversation", JStr "no key")])]
                          :: []))
              [text_message "a@s.whatsapp.net" "hi"]
              [text_message "c@s.whatsapp.net" "yo"] []
              (JObj [("message", JObj [("conversation", JStr "no key")])])
              (initial_world true) eq_refl eq_refl eq_refl eq_refl)
    as (A & _ & B & C).
  split; [exact A|]. split; [exact B | exact C].
Defined.

Lemma messages_edges_witness :
  let w := initial_world true in
  (nullish JUndefined = true
   /\ on_messages_upsert MultiFile JUndefined w =
      (Normal tt, add_effect (ELog Error "Erreur messages.upsert:" [TypeError]) w))
  /\ (not_iterable (JNum 7) = true
      /\ on_messages_upsert MultiFile (JObj [("messages", JNum 7)]) w =
         (Normal tt, add_effect (ELog Error "Erreur messages.upsert:" [TypeError]) w))
  /\ (truthy (prop (JObj []) "messages") = false
      /\ on_messages_upsert MultiFile (JObj []) w = (Normal tt, w))
  /\ on_messages_upsert MultiFile (JObj [("messages", JStr "abc")]) w = (Normal tt, w).
Proof.
  split; [|split; [|split]].
  - split; [reflexivity|].
    exact (proj1 (messages_upsert_edges MultiFile JUndefined (initial_world true))
             eq_refl).
  - split; [reflexivity|].
    exact (proj1 (proj2 (messages_upsert_edges MultiFile
                           (JObj [("messages", JNum 7)]) (initial_world true)))
             eq_refl eq_refl eq_refl).
  - split; [reflexivity|].
    exact (proj1 (proj2 (proj2 (messages_upsert_edges MultiFile (JObj [])
                                  (initial_world true))))
             eq_refl eq_refl).
  - exact (proj2 (proj2 (proj2 (messages_upsert_edges MultiFile
                                  (JObj [("messages", JStr "abc")])
                                  (initial_world true))))
             "abc" eq_refl).
Defined.

Lemma repeated_reinitializing_witness :
  let DR := baileys_DisconnectReason in
  let w := initial_world true in
  (is_disconnect (close_update (JNum 401)) = true
   /\ is_bad_or_logged_out DR (code_of (close_update (JNum 401))) = true
   /\ is_disconnect (close_update (JNum 500)) = true
   /\ is_bad_or_logged_out DR (code_of (close_update (JNum 500))) = true
   /\ auth_present w = true /\ fs_denied sample_env = false)
  /\ (let w1 := snd (on_connection_update DR sample_toDataURL MultiFile sample_env
                       (close_update (JNum 401)) w) in
      let r2 := on_connection_update DR sample_toDataURL MultiFile denied_env
                  (close_update (JNum 500)) w1 in
      auth_present w1 = false
      /\ fst r2 = Normal tt
      /\ auth_present (snd r2) = false
      /\ scheduled (trace (snd r2)) = [2000; 2000]
      /\ deletions (trace (snd r2)) = 1%nat).
Proof.
  split; [repeat split|].
  exact (repeated_reinitializing baileys_DisconnectReason sample_toDataURL MultiFile
           sample_env denied_env (close_update (JNum 401)) (close_update (JNum 500))
           (initial_world true) eq_refl eq_refl eq_refl eq_refl eq_refl eq_refl).
Defined.

Lemma page_shows_challenge_witness :
  let DR := baileys_DisconnectReason in
  let w := initial_world true in
  (has_challenge (qr_update "XYZ") = true
   /\ sample_toDataURL (prop (qr_update "XYZ") "qr") = Ok "data:image/png;base64,XYZ"
   /\ truthy (prop (qr_update "XYZ") "connection") = false)
  /\ (let w' := snd (on_connection_update DR sample_toDataURL SingleFile sample_env
                       (qr_update "XYZ") w) in
      root_page w' = QrPage (JStr "qr-generated") (Some "2024-01-01T00:00:00.000Z")
                            "data:image/png;base64,XYZ"
      /\ health w' = mkHealth (JStr "qr-generated") (Some "2024-01-01T00:00:00.000Z")).
Proof.
  split; [repeat split|].
  refine (page_shows_encoded_challenge baileys_DisconnectReason sample_toDataURL
            SingleFile sample_env (qr_update "XYZ") (initial_world true)
            "data:image/png;base64,XYZ" eq_refl eq_refl _ eq_refl).
  discriminate.
Defined.

Lemma non_numeric_reason_witness :
  let DR := baileys_DisconnectReason in
  let u := close_update (JStr "401") in
  let w := initial_world true in
  (is_disconnect u = true /\ code_of u = JStr "401")
  /\ scheduled (trace (snd (on_connection_update DR sample_toDataURL MultiFile
                              sample_env u w))) = [5000]
  /\ store_calls (trace (snd (on_connection_update DR sample_toDataURL MultiFile
                                sample_env u w))) = []
  /\ auth_present (snd (on_connection_update DR sample_toDataURL MultiFile
                          sample_env u w)) = true.
Proof.
  split; [split; reflexivity|].
  refine (non_numeric_reason_waits baileys_DisconnectReason sample_toDataURL
            MultiFile sample_env (close_update (JStr "401")) (initial_world true)
            eq_refl _).
  intros n. discriminate.
Defined.

Lemma status_code_fallback_witness :
  let DR := baileys_DisconnectReason in
  let u := JObj [("lastDisconnect",
                  JObj [("error", JObj [("output", JObj [("statusCode", JNum 0)]);
                                        ("statusCode", JNum 401)])])] in
  let w := initial_world true in
  is_disconnect u = true
  /\ code_of u = JNum 401
  /\ scheduled (trace (snd (on_connection_update DR sample_toDataURL MultiFile
                              sample_env u w))) = [2000].
Proof.
  split; [reflexivity|].
  exact (status_code_falls_back_to_top_level baileys_DisconnectReason
           sample_toDataURL MultiFile sample_env
           (JObj [("lastDisconnect",
                   JObj [("error", JObj [("output", JObj [("statusCode", JNum 0)]);
                                         ("statusCode", JNum 401)])])])
           (initial_world true) eq_refl).
Defined.

Lemma image_cleared_witness :
  let DR := baileys_DisconnectReason in
  let w1 := snd (on_connection_update DR sample_toDataURL MultiFile sample_env
                   (qr_update "XYZ") (initial_world true)) in
  let s := SConnectionUpdate sample_env open_update in
  (latestQRCodeDataUrl w1 <> None
   /\ latestQRCodeDataUrl (step DR sample_toDataURL MultiFile s w1) = None)
  /\ exists env update, s = SConnectionUpdate env update /\ reports_open update = true.
Proof.
  split; [split; [discriminate | reflexivity]|].
  refine (image_cleared_only_by_open baileys_DisconnectReason sample_toDataURL
            MultiFile (SConnectionUpdate sample_env open_update)
            (snd (on_connection_update baileys_DisconnectReason sample_toDataURL
                    MultiFile sample_env (qr_update "XYZ") (initial_world true)))
            _ eq_refl).
  discriminate.
Defined.

(** ** The pairing snapshot: image and timestamp *)

(** C4 (as amended).  The pairing snapshot is the image with its timestamp,
    read when a run of the listener completes, the runs being taken one
    after the other.  The image is empty as long as no step has carried a
    pairing challenge.  After the run for an update that carries a challenge
    and does not report ['open']: when the encoding succeeded, the image is
    the encoding of that challenge, whatever it held before (one slot,
    overwritten), and the timestamp is the clock reading of that encoding;
    when the encoding failed, image and timestamp are what they were.  After
    the run for an update that reports ['open'] the image is empty and the
    timestamp is not: it is the clock reading of the ['open']. *)
Theorem pairing_image_single_slot :
  forall (DR : DisconnectReasonT) (enc : JsVal -> Result string) (v : Variant)
         (steps : list Step) (store_on_disk : bool)
         (env : Env) (update : JsVal) (w : World),
    let w' := snd (on_connection_update DR enc v env update w) in
    (forallb (fun s => negb (carries_challenge s)) steps = true ->
     latestQRCodeDataUrl (run DR enc v steps (initial_world store_on_disk)) = None)
    /\ (has_challenge update = true -> reports_open update = false ->
        latestQRCodeDataUrl w' =
          match enc (prop update "qr") with
          | Ok url => Some url
          | Failed _ => latestQRCodeDataUrl w
          end
        /\ qrLastUpdated w' =
           match enc (prop update "qr") with
           | Ok _ => Some (date_qr env)
           | Failed _ => qrLastUpdated w
           end)
    /\ (reports_open update = true ->
        latestQRCodeDataUrl w' = None
        /\ qrLastUpdated w' = Some (date_open env)).
Proof.
  intros DR enc v steps store env update w w'. subst w'. split; [|split].
  - intros H. now apply run_without_challenge.
  - intros Hc Ho. now rewrite image_after_update, stamp_after_update_aux, Ho, Hc.
  - intros Ho. now rewrite image_after_update, stamp_after_update_aux, Ho.
Qed.

Lemma pairing_image_witness :
  let DR := baileys_DisconnectReason in
  let quiet_steps :=
    [SStart (mkStartEnv (Settled (Failed JNull)) (Ok tt) (Ok tt) None);
     SConnectionUpdate sample_env (JObj [("connection", JStr "connecting")]);
     SCredsUpdate (Ok tt);
     SConnectionUpdate sample_env (close_update (JNum 428))] in
  let w := initial_world false in
  let w1 := snd (on_connection_update DR sample_toDataURL MultiFile sample_env
                   (qr_update "XYZ") w) in
  (forallb (fun s => negb (carries_challenge s)) quiet_steps = true
   /\ latestQRCodeDataUrl (run DR sample_toDataURL MultiFile quiet_steps w) = None)
  /\ (has_challenge (qr_update "XYZ") = true
      /\ reports_open (qr_update "XYZ") = false
      /\ latestQRCodeDataUrl w1 = Some "data:image/png;base64,XYZ"
      /\ qrLastUpdated w1 = Some "2024-01-01T00:00:00.000Z")
  /\ (reports_open open_update = true
      /\ latestQRCodeDataUrl
           (snd (on_connection_update DR sample_toDataURL MultiFile sample_env
                   open_update w1)) = None
      /\ qrLastUpdated
           (snd (on_connection_update DR sample_toDataURL MultiFile sample_env
                   open_update w1)) = Some "2024-01-01T00:00:05.000Z").
Proof.
  split; [|split].
  - split; [reflexivity|].
    exact (proj1 (pairing_image_single_slot baileys_DisconnectReason
                    sample_toDataURL MultiFile
                    [SStart (mkStartEnv (Settled (Failed JNull)) (Ok tt) (Ok tt) None);
                     SConnectionUpdate sample_env (JObj [("connection", JStr "connecting")]);
                     SCredsUpdate (Ok tt);
                     SConnectionUpdate sample_env (close_update (JNum 428))]
                    false sample_env JNull
                    (initial_world false)) eq_refl).
  - split; [reflexivity|]. split; [reflexivity|].
    exact (proj1 (proj2 (pairing_image_single_slot baileys_DisconnectReason
                    sample_toDataURL MultiFile [] false sample_env
                    (qr_update "XYZ") (initial_world false))) eq_refl eq_refl).
  - split; [reflexivity|].
    exact (proj2 (proj2 (pairing_image_single_slot baileys_DisconnectReason
                    sample_toDataURL MultiFile [] false sample_env
                    open_update
                    (snd (on_connection_update baileys_DisconnectReason
                            sample_toDataURL MultiFile sample_env
                            (qr_update "XYZ") (initial_world false)))))
             eq_refl).
Defined.

(** ** Failures, path by path *)

(** C8 (as amended).  Nothing is thrown out of [start], of the
    ['connection.update'] listener or of the ['messages.upsert'] listener.
    Whatever the body of a listener throws is caught by its outer [catch]
    and logged at error level, and the listener returns.  In [start]: a
    rejected version lookup is logged as a warning and the fallback is used;
    a failure that reaches the outer [catch] (the credential load or the
    socket construction in [index.js]; the socket construction or the store
    binding in the second file) is logged once at error level, one retry is
    scheduled 5000 ms later and [start] returns undefined; a failure of the
    store binding in [index.js] is received by its own [catch], logged once
    at debug level, and [start] goes on to return the socket with no retry.
    A failed encoding of the pairing challenge and a failed deletion of the
    credential store are logged at error level and the listener goes on.  A
    failure of the saver behind ['creds.update'] is the exception: the
    program neither catches nor logs it. *)
Theorem failures_inside_start_and_listeners_are_caught :
  forall (DR : DisconnectReasonT) (enc : JsVal -> Result string) (v : Variant)
         (env : Env) (update m : JsVal) (senv : StartEnv) (w w1 : World)
         (e : JsVal) (r : Result JsVal),
    fst (on_connection_update DR enc v env update w) = Normal tt
    /\ fst (on_messages_upsert v m w) = Normal tt
    /\ fst (start v senv w) <> Throws e
    /\ (connection_update_body DR enc v env update w = (Throws e, w1) ->
        snd (on_connection_update DR enc v env update w) =
        add_effect (ELog Error "Erreur dans connection.update handler:" [e]) w1)
    /\ (messages_upsert_body v m w = (Throws e, w1) ->
        snd (on_messages_upsert v m w) =
        add_effect (ELog Error "Erreur messages.upsert:" [e]) w1)
    /\ (start_body v senv w = (Throws e, w1) ->
        snd (start v senv w) =
        add_effect (ESetTimeout 5000)
                   (add_effect (ELog Error (msg_start_error v) [e]) w1))
    /\ (fetch_version senv = Settled (Failed e) ->
        resolve_version v senv w =
        (Normal fallback_version,
         add_effect (ELog Warn (msg_version_fallback v) []) w))
    /\ (fetch_version senv = Settled r -> start_fails v senv = true ->
        fst (start v senv w) = Normal JUndefined
        /\ logged Error (trace (snd (start v senv w))) = S (logged Error (trace w))
        /\ logged Debug (trace (snd (start v senv w))) = logged Debug (trace w)
        /\ scheduled (trace (snd (start v senv w))) = scheduled (trace w) ++ [5000])
    /\ (fetch_version senv = Settled r -> bind_swallowed v senv = true ->
        fst (start v senv w) = Normal (sock_of (resolved_version r))
        /\ logged Debug (trace (snd (start v senv w))) = S (logged Debug (trace w))
        /\ logged Error (trace (snd (start v senv w))) = logged Error (trace w)
        /\ scheduled (trace (snd (start v senv w))) = scheduled (trace w))
    /\ (has_challenge update = true -> enc (prop update "qr") = Failed e ->
        qr_block enc v env (prop update "qr") w =
        (Normal tt, add_effect (ELog Error (msg_qr_error v) [e]) w))
    /\ (fst (delete_auth v env w) = Normal tt
        /\ logged Error (trace (snd (delete_auth v env w))) =
           (logged Error (trace w)
            + if delete_fails v env w then 1 else 0)%nat)
    /\ on_creds_update (Failed e) w = (Throws e, add_effect ESaveAuth w).
Proof.
  intros DR enc v env update m senv w w1 e r.
  assert (Sw : bind_swallowed v senv = true -> start_fails v senv = false).
  { unfold bind_swallowed, start_fails. destruct v; [|discriminate].
    intros H. apply andb_prop in H. destruct H as [H _].
    apply andb_prop in H. destruct H as [H1 H2].
    apply negb_true_iff in H1, H2. now rewrite H1, H2. }
  split; [apply on_connection_update_completes|].
  split; [destruct (on_messages_upsert_total v m w) as ([] & E); exact E|].
  split; [apply start_never_throws|].
  split; [intros H; unfold on_connection_update;
          now rewrite (try_catch_throws _ _ _ _ _ H)|].
  split; [intros H; unfold on_messages_upsert;
          now rewrite (try_catch_throws _ _ _ _ _ H)|].
  split; [intros H; unfold start; now rewrite (try_catch_throws _ _ _ _ _ H)|].
  split; [now apply resolve_version_rejected|].
  split.
  { intros H F.
    destruct (start_spec v senv w r H) as (l & E & _ & Hs & He & _ & _ & Hg).
    rewrite E. unfold after. simpl.
    rewrite !logged_app, scheduled_app, Hs, He, Hg, F.
    destruct (bind_swallowed v senv) eqn:B;
      [rewrite (Sw eq_refl) in F; discriminate F|].
    repeat split; lia. }
  split.
  { intros H B.
    destruct (start_spec v senv w r H) as (l & E & _ & Hs & He & _ & _ & Hg).
    rewrite E. unfold after. simpl.
    rewrite !logged_app, scheduled_app, Hs, He, Hg, B, (Sw B), app_nil_r.
    repeat split; lia. }
  split; [intros Hc He; now apply qr_block_rejected|].
  split.
  { split.
    - destruct (delete_auth_spec v env w) as (l & E & _). now rewrite E.
    - destruct (delete_auth_spec v env w) as (l & E & _ & _ & _ & L & _).
      rewrite E. unfold after. simpl. now rewrite logged_app, L. }
  reflexivity.
Qed.

Lemma failures_caught_witness :
  let DR := baileys_DisconnectReason in
  let w := initial_world true in
  let no_load := mkStartEnv (Settled (Failed JNull)) (Failed EPERM) (Ok tt) None in
  let no_bind := mkStartEnv (Settled (Failed JNull)) (Ok tt) (Ok tt)
                            (Some (Failed TypeError)) in
  (connection_update_body DR sample_toDataURL MultiFile sample_env JNull w
     = (Throws TypeError, w)
   /\ snd (on_connection_update DR sample_toDataURL MultiFile sample_env JNull w)
      = add_effect (ELog Error "Erreur dans connection.update handler:" [TypeError]) w)
  /\ (messages_upsert_body MultiFile (JObj [("messages", JNum 7)]) w
        = (Throws TypeError, w)
      /\ snd (on_messages_upsert MultiFile (JObj [("messages", JNum 7)]) w)
         = add_effect (ELog Error "Erreur messages.upsert:" [TypeError]) w)
  /\ (fst (start_body MultiFile no_load w) = Throws EPERM
      /\ scheduled (trace (snd (start MultiFile no_load w))) = [5000]
      /\ fst (start MultiFile no_load w) <> Throws EPERM)
  /\ (fetch_version no_bind = Settled (Failed JNull)
      /\ start_fails SingleFile no_bind = true
      /\ fst (start SingleFile no_bind w) = Normal JUndefined
      /\ logged Error (trace (snd (start SingleFile no_bind w))) = 1%nat
      /\ scheduled (trace (snd (start SingleFile no_bind w))) = [5000])
  /\ (bind_swallowed MultiFile no_bind = true
      /\ fst (start MultiFile no_bind w) = Normal (sock_of fallback_version)
      /\ logged Debug (trace (snd (start MultiFile no_bind w))) = 1%nat
      /\ logged Error (trace (snd (start MultiFile no_bind w))) = 0%nat
      /\ scheduled (trace (snd (start MultiFile no_bind w))) = []).
Proof.
  split; [|split; [|split; [|split]]].
  - split; [reflexivity|].
    destruct (failures_inside_start_and_listeners_are_caught
                baileys_DisconnectReason sample_toDataURL MultiFile sample_env
                JNull JNull
                (mkStartEnv NeverSettles (Ok tt) (Ok tt) None)
                (initial_world true) (initial_world true) TypeError (Failed JNull))
      as (_ & _ & _ & H & _).
    exact (H eq_refl).
  - split; [reflexivity|].
    destruct (failures_inside_start_and_listeners_are_caught
                baileys_DisconnectReason sample_toDataURL MultiFile sample_env
                JNull (JObj [("messages", JNum 7)])
                (mkStartEnv NeverSettles (Ok tt) (Ok tt) None)
                (initial_world true) (initial_world true) TypeError (Failed JNull))
      as (_ & _ & _ & _ & H & _).
    exact (H eq_refl).
  - split; [reflexivity|].
    destruct (failures_inside_start_and_listeners_are_caught
                baileys_DisconnectReason sample_toDataURL MultiFile sample_env
                JNull JNull
                (mkStartEnv (Settled (Failed JNull)) (Failed EPERM) (Ok tt) None)
                (initial_world true)
                (snd (start_body MultiFile
                        (mkStartEnv (Settled (Failed JNull)) (Failed EPERM) (Ok tt) None)
                        (initial_world true)))
                EPERM (Failed JNull))
      as (_ & _ & T & _ & _ & H & _).
    split; [rewrite (H eq_refl); reflexivity | exact T].
  - split; [reflexivity|]. split; [reflexivity|].
    destruct (failures_inside_start_and_listeners_are_caught
                baileys_DisconnectReason sample_toDataURL SingleFile sample_env
                JNull JNull
                (mkStartEnv (Settled (Failed JNull)) (Ok tt) (Ok tt)
                            (Some (Failed TypeError)))
                (initial_world true) (initial_world true) TypeError (Failed JNull))
      as (_ & _ & _ & _ & _ & _ & _ & H & _).
    destruct (H eq_refl eq_refl) as (A & B & _ & C).
    split; [exact A|]. split; [exact B | exact C].
  - split; [reflexivity|].
    destruct (failures_inside_start_and_listeners_are_caught
                baileys_DisconnectReason sample_toDataURL MultiFile sample_env
                JNull JNull
                (mkStartEnv (Settled (Failed JNull)) (Ok tt) (Ok tt)
                            (Some (Failed TypeError)))
                (initial_world true) (initial_world true) TypeError (Failed JNull))
      as (_ & _ & _ & _ & _ & _ & _ & _ & H & _).
    destruct (H eq_refl eq_refl) as (A & B & C & D).
    split; [exact A|]. split; [exact B|]. split; [exact C | exact D].
Defined.
